(** * WhatsApp history store (src/web/history-store.ts)

    A shallow embedding of [WhatsAppHistoryStore]: the three SQLite tables
    are lists of rows in rowid order, every prepared statement the class
    runs is a constructor of [Statement] with its SQLite meaning given by
    [exec_statement], and the methods are written in a small state-and-error
    monad over the store object.

    Timestamps are integer epoch milliseconds within the 64-bit range and
    coordinates are finite numbers.  A read throws where node:sqlite
    throws: on an INTEGER that is no safe JavaScript integer and on a
    LIMIT that is no 64-bit integer; a TEXT is read back up to its first
    NUL character.  A write statement can be made to fail
    ([storeMessage_failing]); the [catch] of [storeMessage] logs and
    rethrows.  The database file is its three tables: a path with no
    file yet and a file with empty tables are the same [Database], so the
    directory, file and schema creation of [initialize] shows as the
    handle being opened, or as the exception of the step that fails
    ([initialize_with]).  The logger is left out. *)

From Stdlib Require Import List ZArith String Ascii Bool Lia.
From Stdlib Require Import Sorting.Sorted Sorting.Permutation.
From Stdlib Require QArith_base.
Import ListNotations.
Local Open Scope string_scope.
Local Open Scope Z_scope.
Local Open Scope list_scope.

(** ** Data model *)

(** A finite JavaScript number used for a coordinate (REAL column). *)
Definition number := QArith_base.Q.

Inductive ChatType := direct | group.

Definition ChatType_eqb (a b : ChatType) : bool :=
  match a, b with
  | direct, direct | group, group => true
  | _, _ => false
  end.

(** A row of table [messages]; [timestamp] and [created_at] are epoch
    milliseconds, [is_from_me] is the INTEGER column holding 1 or 0. *)
Record StoredMessage := mkStoredMessage {
  message_id : string;
  conversation_jid : string;
  sender_jid : option string;
  sender_e164 : option string;
  sender_name : option string;
  body : string;
  timestamp : Z;
  is_from_me : Z;
  reply_to_id : option string;
  media_path : option string;
  media_type : option string;
  location_lat : option number;
  location_lon : option number;
  raw_message : string;
  account_id : string;
  created_at : Z
}.

(** A row of table [conversations]. *)
Module Conv.
Record t := mk {
  jid : string;
  chat_type : ChatType;
  display_name : option string;
  last_message_at : Z;
  created_at : Z
}.
End Conv.
Definition ConversationMetadata := Conv.t.

(** A row of table [participants]. *)
Module Part.
Record t := mk {
  conversation_jid : string;
  participant_jid : string;
  participant_e164 : option string;
  joined_at : Z
}.
End Part.

(** The argument of [storeMessage]; [W] is the type of the raw protocol
    message ([WAMessage]). *)
Module Params.
Record location_t := mkLocation { lat : number; lon : number }.
Record t (W : Type) := mk {
  messageId : string;
  conversationJid : string;
  chatType : ChatType;
  senderJid : option string;
  senderE164 : option string;
  senderName : option string;
  body : string;
  timestamp : Z;
  isFromMe : bool;
  replyToId : option string;
  mediaPath : option string;
  mediaType : option string;
  location : option location_t;
  rawMessage : W;
  accountId : string;
  displayName : option string;
  groupParticipants : option (list string)
}.
Arguments mk {W}.
Arguments messageId {W}.
Arguments conversationJid {W}.
Arguments chatType {W}.
Arguments senderJid {W}.
Arguments senderE164 {W}.
Arguments senderName {W}.
Arguments body {W}.
Arguments timestamp {W}.
Arguments isFromMe {W}.
Arguments replyToId {W}.
Arguments mediaPath {W}.
Arguments mediaType {W}.
Arguments location {W}.
Arguments rawMessage {W}.
Arguments accountId {W}.
Arguments displayName {W}.
Arguments groupParticipants {W}.
End Params.

(** [ExportFilter]: every field optional. *)
Module Filter.
Record t := mk {
  from : option string;
  to : option string;
  conversationJid : option string;
  accountId : option string;
  limit : option Z
}.
(** The default argument [{}]. *)
Definition empty : t := mk None None None None None.
End Filter.
Definition ExportFilter := Filter.t.

(** [ExportedConversation] and the entries of its [messages] array. *)
Module Exported.
Record location_t := mkLocation { lat : number; lon : number }.
Record message := mkMessage {
  messageId : string;
  senderJid : option string;
  senderE164 : option string;
  senderName : option string;
  body : string;
  timestamp : Z;
  isFromMe : bool;
  replyToId : option string;
  mediaPath : option string;
  mediaType : option string;
  location : option location_t
}.
Record t := mk {
  jid : string;
  chatType : ChatType;
  displayName : option string;
  messages : list message
}.
End Exported.
Definition ExportedConversation := Exported.t.

(** The result of [getStats]. *)
Module Stats.
Record t := mk {
  totalMessages : Z;
  totalConversations : Z;
  oldestMessage : option Z;
  newestMessage : option Z
}.
End Stats.

(** ** The SQLite file

    Each table is the list of its rows in rowid order.  A file on which the
    schema was never created is the file with three empty tables, which is
    what [CREATE TABLE IF NOT EXISTS] makes of it. *)
Record Database := mkDatabase {
  conversations : list ConversationMetadata;
  messages : list StoredMessage;
  participants : list Part.t
}.

Definition empty_database : Database := mkDatabase [] [] [].

(** SQL [COALESCE(a, b)]. *)
Definition COALESCE {A} (a b : option A) : option A :=
  match a with
  | Some x => Some x
  | None => b
  end.

(** [INSERT INTO conversations ... ON CONFLICT(jid) DO UPDATE SET
    display_name = COALESCE(excluded.display_name, display_name),
    last_message_at = excluded.last_message_at]. *)
Fixpoint upsert_conversation (excluded : ConversationMetadata)
    (rows : list ConversationMetadata) : list ConversationMetadata :=
  match rows with
  | [] => [excluded]
  | r :: rest =>
      if String.eqb (Conv.jid r) (Conv.jid excluded)
      then Conv.mk (Conv.jid r) (Conv.chat_type r)
             (COALESCE (Conv.display_name excluded) (Conv.display_name r))
             (Conv.last_message_at excluded) (Conv.created_at r) :: rest
      else r :: upsert_conversation excluded rest
  end.

(** PRIMARY KEY (conversation_jid, message_id). *)
Definition message_key_eqb (cj mid : string) (r : StoredMessage) : bool :=
  String.eqb (conversation_jid r) cj && String.eqb (message_id r) mid.

(** [INSERT OR REPLACE INTO messages]: the conflicting row is deleted and
    the new row gets a fresh rowid. *)
Definition insert_or_replace_message (row : StoredMessage)
    (rows : list StoredMessage) : list StoredMessage :=
  filter (fun r => negb (message_key_eqb (conversation_jid row) (message_id row) r)) rows
  ++ [row].

(** PRIMARY KEY (conversation_jid, participant_jid). *)
Definition participant_key_eqb (cj pj : string) (r : Part.t) : bool :=
  String.eqb (Part.conversation_jid r) cj && String.eqb (Part.participant_jid r) pj.

(** [INSERT OR IGNORE INTO participants]. *)
Definition insert_or_ignore_participant (row : Part.t)
    (rows : list Part.t) : list Part.t :=
  if existsb (participant_key_eqb (Part.conversation_jid row) (Part.participant_jid row)) rows
  then rows
  else rows ++ [row].

(** The three write statements of [storeMessage] with their bound values. *)
Inductive Statement :=
| upsertConv (row : ConversationMetadata)
| insertMsg (row : StoredMessage)
| insertParticipant (row : Part.t).

Definition exec_statement (st : Statement) (d : Database) : Database :=
  match st with
  | upsertConv row =>
      mkDatabase (upsert_conversation row (conversations d)) (messages d) (participants d)
  | insertMsg row =>
      mkDatabase (conversations d) (insert_or_replace_message row (messages d)) (participants d)
  | insertParticipant row =>
      mkDatabase (conversations d) (messages d) (insert_or_ignore_participant row (participants d))
  end.

Definition exec_statements (sts : list Statement) (d : Database) : Database :=
  fold_left (fun acc st => exec_statement st acc) sts d.

(** ** The store object and its monad *)

(** [db_open] says whether [this.db] holds a handle; [file] is the content
    of the SQLite file at [dbPath]. *)
Record WhatsAppHistoryStore := mkStore {
  db_open : bool;
  file : Database
}.

(** What a method throws: an [Error] with its message, or the
    [RangeError] of node:sqlite for the integer it could not return. *)
Inductive JsError :=
| Error (message : string)
| RangeError (value : Z).

Definition NotInitialized : JsError := Error "Database not initialized".

(** A method either throws or returns, and leaves a store behind. *)
Definition M (A : Type) : Type :=
  WhatsAppHistoryStore -> (JsError + A) * WhatsAppHistoryStore.

Definition ret {A} (a : A) : M A := fun s => (inr a, s).

Definition bind {A B} (m : M A) (k : A -> M B) : M B :=
  fun s =>
    match m s with
    | (inl e, s') => (inl e, s')
    | (inr a, s') => k a s'
    end.

Definition throw {A} (e : JsError) : M A := fun s => (inl e, s).

Definition this : M WhatsAppHistoryStore := fun s => (inr s, s).

Definition run (st : Statement) : M unit :=
  fun s => (inr tt, mkStore (db_open s) (exec_statement st (file s))).

Declare Scope store_scope.
Delimit Scope store_scope with store.
Notation "x <- m ;; k" := (bind m (fun x => k))
  (at level 61, m at next level, right associativity) : store_scope.
Notation "m ;; k" := (bind m (fun _ => k))
  (at level 61, right associativity) : store_scope.
Local Open Scope store_scope.

(** [for (const x of l) body(x)]. *)
Fixpoint for_of {A} (l : list A) (body : A -> M unit) : M unit :=
  match l with
  | [] => ret tt
  | x :: rest => body x ;; for_of rest body
  end.

(** What the file system and the engine do to one [initialize]: nothing,
    or an exception of [mkdirSync] or [new DatabaseSync], thrown before
    [this.db] is set, or an exception of the schema [exec], thrown after. *)
Inductive InitializeFault :=
| no_fault
| fault_before_open (e : JsError)
| fault_after_open (e : JsError).

(** [initialize]: a no-op on an open store, else the handle is opened and
    the schema ensured. *)
Definition initialize_with (fault : InitializeFault) : M unit :=
  fun s =>
    if db_open s then (inr tt, s)
    else
      match fault with
      | no_fault => (inr tt, mkStore true (file s))
      | fault_before_open e => (inl e, s)
      | fault_after_open e => (inl e, mkStore true (file s))
      end.

(** [initialize] when the directory, the file and the schema can be
    made. *)
Definition initialize : M unit := initialize_with no_fault.

(** [close]. *)
Definition close : M unit :=
  fun s => if db_open s then (inr tt, mkStore false (file s)) else (inr tt, s).

(** [x ?? null] on an optional property is the identity on [option]. *)
Definition nullish {A} (x : option A) : option A := x.


(** ** The read engine *)

(** A [WHERE] conjunct with its bound value.  A bound date is [None] when
    [getTime()] gave NaN: node:sqlite binds NaN as NULL, and a comparison
    with NULL selects no row. *)
Inductive Condition :=
| timestamp_ge (v : option Z)
| timestamp_le (v : option Z)
| conversation_jid_eq (v : string)
| account_id_eq (v : string).

Definition eval_condition (c : Condition) (r : StoredMessage) : bool :=
  match c with
  | timestamp_ge (Some v) => v <=? timestamp r
  | timestamp_ge None => false
  | timestamp_le (Some v) => timestamp r <=? v
  | timestamp_le None => false
  | conversation_jid_eq v => String.eqb (conversation_jid r) v
  | account_id_eq v => String.eqb (account_id r) v
  end.

(** [conditions.join(" AND ")]; no conjunct means no [WHERE] clause. *)
Definition where_clause (conditions : list Condition) (r : StoredMessage) : bool :=
  forallb (fun c => eval_condition c r) conditions.

(** [ORDER BY timestamp ASC]: rows of equal timestamp stay in rowid order. *)
Fixpoint insert_by_timestamp (x : StoredMessage) (l : list StoredMessage)
    : list StoredMessage :=
  match l with
  | [] => [x]
  | y :: rest =>
      if timestamp x <=? timestamp y then x :: y :: rest
      else y :: insert_by_timestamp x rest
  end.

Fixpoint order_by_timestamp (l : list StoredMessage) : list StoredMessage :=
  match l with
  | [] => []
  | x :: rest => insert_by_timestamp x (order_by_timestamp rest)
  end.

(** [LIMIT n]: SQLite wants a 64-bit integer and raises a datatype
    mismatch on any other number; a negative [n] is no bound. *)
Definition fits_int64 (n : Z) : bool := (- 2 ^ 63 <=? n) && (n <? 2 ^ 63).

Definition apply_limit {A} (limitClause : option Z) (rows : list A)
    : JsError + list A :=
  match limitClause with
  | None => inr rows
  | Some n =>
      if fits_int64 n
      then inr (if n <? 0 then rows else firstn (Z.to_nat n) rows)
      else inl (Error "datatype mismatch")
  end.

(** An INTEGER is returned as a number when it is a safe integer;
    otherwise the read throws. *)
Definition MAX_SAFE_INTEGER : Z := 2 ^ 53 - 1.

Definition safe_integer (z : Z) : bool :=
  (- MAX_SAFE_INTEGER <=? z) && (z <=? MAX_SAFE_INTEGER).

(** A TEXT is returned up to its first NUL character. *)
Definition NUL : ascii := "000"%char.

Fixpoint read_text (s : string) : string :=
  match s with
  | EmptyString => EmptyString
  | String c rest => if Ascii.eqb c NUL then EmptyString else String c (read_text rest)
  end.

(** The first INTEGER column of a message row, in column order, that
    cannot be returned. *)
Definition unsafe_column (r : StoredMessage) : option Z :=
  if negb (safe_integer (timestamp r)) then Some (timestamp r)
  else if negb (safe_integer (is_from_me r)) then Some (is_from_me r)
  else if negb (safe_integer (created_at r)) then Some (created_at r)
  else None.

(** The object returned for a message row whose integers are safe. *)
Definition read_row (r : StoredMessage) : StoredMessage :=
  mkStoredMessage
    (read_text (message_id r))
    (read_text (conversation_jid r))
    (option_map read_text (sender_jid r))
    (option_map read_text (sender_e164 r))
    (option_map read_text (sender_name r))
    (read_text (body r))
    (timestamp r)
    (is_from_me r)
    (option_map read_text (reply_to_id r))
    (option_map read_text (media_path r))
    (option_map read_text (media_type r))
    (location_lat r)
    (location_lon r)
    (read_text (raw_message r))
    (read_text (account_id r))
    (created_at r).

(** [stmt.all()] turns the selected rows into objects one by one. *)
Fixpoint read_all (rows : list StoredMessage) : JsError + list StoredMessage :=
  match rows with
  | [] => inr []
  | r :: rest =>
      match unsafe_column r with
      | Some z => inl (RangeError z)
      | None =>
          match read_all rest with
          | inl e => inl e
          | inr objects => inr (read_row r :: objects)
          end
      end
  end.

(** [SELECT * FROM messages WHERE ... ORDER BY timestamp ASC LIMIT ...]
    through [all]. *)
Definition select_messages (conditions : list Condition) (limitClause : option Z)
    (d : Database) : JsError + list StoredMessage :=
  match apply_limit limitClause
          (order_by_timestamp (filter (where_clause conditions) (messages d))) with
  | inl e => inl e
  | inr rows => read_all rows
  end.

(** The test [jid = ?] on a conversation row. *)
Definition jid_is (j : string) (c : ConversationMetadata) : bool :=
  String.eqb (Conv.jid c) j.

(** The row of [... FROM conversations WHERE jid = ?]: the first one or
    none. *)
Definition select_conversation (j : string) (d : Database) : option ConversationMetadata :=
  find (jid_is j) (conversations d).

(** [SELECT chat_type, display_name FROM conversations WHERE jid = ?]
    through [get]: the two columns of that row as read back, or
    undefined. *)
Definition get_conversation (j : string) (d : Database)
    : option (ChatType * option string) :=
  option_map (fun c => (Conv.chat_type c, option_map read_text (Conv.display_name c)))
    (select_conversation j d).

(** An aggregate INTEGER through [get]: NULL stays null. *)
Definition read_aggregate (o : option Z) : JsError + option Z :=
  match o with
  | None => inr None
  | Some z => if safe_integer z then inr (Some z) else inl (RangeError z)
  end.

(** [SELECT MIN(timestamp)] and [SELECT MAX(timestamp)]: NULL on no row. *)
Definition sql_min (l : list Z) : option Z :=
  match l with
  | [] => None
  | x :: rest => Some (fold_left Z.min rest x)
  end.

Definition sql_max (l : list Z) : option Z :=
  match l with
  | [] => None
  | x :: rest => Some (fold_left Z.max rest x)
  end.

(** Truthiness of an optional string and of an optional number. *)
Definition truthy_string (o : option string) : option string :=
  match o with
  | Some s => if String.eqb s "" then None else Some s
  | None => None
  end.

Definition truthy_number (o : option Z) : option Z :=
  match o with
  | Some n => if n =? 0 then None else Some n
  | None => None
  end.

(** [Boolean(n)] on an integer. *)
Definition Boolean (n : Z) : bool := negb (n =? 0).

(** ** The insertion-ordered [Map<string, ExportedConversation>] *)

Definition JsMap := list (string * ExportedConversation).

Definition map_get (k : string) (m : JsMap) : option ExportedConversation :=
  option_map snd (find (fun kv => String.eqb (fst kv) k) m).

Fixpoint map_set (k : string) (v : ExportedConversation) (m : JsMap) : JsMap :=
  match m with
  | [] => [(k, v)]
  | (k', v') :: rest =>
      if String.eqb k' k then (k', v) :: rest else (k', v') :: map_set k v rest
  end.

Definition map_values (m : JsMap) : list ExportedConversation := map snd m.

(** [conv.messages.push(x)] where [conv] is the object the map holds
    under [k]: the push is seen through the map. *)
Fixpoint push_message (k : string) (x : Exported.message) (m : JsMap) : JsMap :=
  match m with
  | [] => []
  | (k', v') :: rest =>
      if String.eqb k' k
      then (k', Exported.mk (Exported.jid v') (Exported.chatType v')
                  (Exported.displayName v') (Exported.messages v' ++ [x])) :: rest
      else (k', v') :: push_message k x rest
  end.

(** The object pushed for one row. *)
Definition exported_message (msg : StoredMessage) : Exported.message :=
  Exported.mkMessage (message_id msg) (sender_jid msg) (sender_e164 msg)
    (sender_name msg) (body msg) (timestamp msg) (Boolean (is_from_me msg))
    (reply_to_id msg) (media_path msg) (media_type msg)
    (match location_lat msg, location_lon msg with
     | Some la, Some lo => Some (Exported.mkLocation la lo)
     | _, _ => None
     end).

(** One iteration of the loop of [exportMessages]. *)
Definition export_step (d : Database) (conversationMap : JsMap) (msg : StoredMessage)
    : JsMap :=
  let k := conversation_jid msg in
  let conversationMap :=
    match map_get k conversationMap with
    | Some _ => conversationMap
    | None =>
        let convData := get_conversation k d in
        map_set k
          (Exported.mk k
             (match convData with Some c => fst c | None => direct end)
             (match convData with Some c => snd c | None => None end)
             [])
          conversationMap
    end in
  push_message k (exported_message msg) conversationMap.

(** ** The options of the export command (src/cli/whatsapp-cli.ts) *)

(** The value [Number.parseInt] leaves in [opts.limit]. *)
Inductive ParsedInt := NaN | Int (z : Z).

(** The options object the action receives. *)
Module Options.
Record t := mk {
  format : option string;
  output : string;
  from : option string;
  to : option string;
  conversation : option string;
  account : option string;
  limit : option ParsedInt;
  dbPath : option string;
  verbose : bool
}.
End Options.

(** ** Sample data

    A direct conversation with one stored message, and two calls that
    share its key. *)

Definition sample_jid : string := "1234567890@s.whatsapp.net".

Definition sample_first : Params.t string :=
  Params.mk "msg-1" sample_jid direct (Some sample_jid) (Some "+1234567890")
    (Some "Test User") "Message 1" 1700000001000 false None None None None
    "{}" "default" (Some "User 1") None.

Definition sample_second : Params.t string :=
  Params.mk "msg-1" sample_jid direct (Some sample_jid) (Some "+1234567890")
    (Some "Test User") "Message 1, edited" 1700000000500 true (Some "msg-0") None None
    None "{}" "default" None None.

Definition sample_row : StoredMessage :=
  mkStoredMessage "msg-0" sample_jid (Some sample_jid) (Some "+1234567890")
    (Some "Test User") "Message 0" 1700000000000 0 None None None None None
    "{}" "default" 1700000000001.

Definition sample_database : Database :=
  mkDatabase
    [Conv.mk sample_jid direct (Some "User 0") 1700000000000 1700000000001]
    [sample_row]
    [].

(** A date parser that knows one date. *)
Definition sample_getTime (s : string) : option Z :=
  if String.eqb s "2023-11-14T22:13:20.000Z" then Some 1700000000000 else None.

(** A later message of the same conversation, the two storage orders of
    the two messages, and the options of a CSV export of one row. *)
Definition sample_row_later : StoredMessage :=
  mkStoredMessage "msg-9" sample_jid (Some sample_jid) (Some "+1234567890")
    (Some "Test User") "Message 9" 1700000009000 1 None None None None None
    "{}" "default" 1700000009001.

Definition sample_database_two : Database :=
  mkDatabase
    [Conv.mk sample_jid direct (Some "User 0") 1700000009000 1700000000001]
    [sample_row; sample_row_later]
    [].

Definition sample_database_swapped : Database :=
  mkDatabase
    [Conv.mk sample_jid direct (Some "User 0") 1700000009000 1700000000001]
    [sample_row_later; sample_row]
    [].

Definition sample_options : Options.t :=
  Options.mk (Some "csv") "./out.csv" (Some "2023-11-14T22:13:20.000Z") None None None
    (Some (Int 1)) None false.

Definition sample_Number_toString (n : number) : string := "0".

(** A message whose body holds a NUL character, and one whose timestamp
    is 2^53, the first integer that is not a safe integer. *)
Definition sample_nul_body : Params.t string :=
  Params.mk "msg-2" sample_jid direct None None None (String "a" (String NUL "b"))
    1700000001000 true None None None None "{}" "default" None None.

Definition sample_unsafe_timestamp : Params.t string :=
  Params.mk "msg-3" sample_jid direct None None None "Message 3"
    9007199254740992 false None None None None "{}" "default" None None.

(** An engine that fails on the message insert, and on nothing else. *)
Definition sample_fails (st : Statement) : bool :=
  match st with
  | insertMsg _ => true
  | _ => false
  end.

Section Store.

(** The raw protocol message, [JSON.stringify] on it, and
    [new Date(s).getTime()] ([None] for NaN) come from outside. *)
Variable WAMessage : Type.
Variable JSON_stringify : WAMessage -> string.
Variable Date_getTime : string -> option Z.

(** The statements one [storeMessage] call runs, in order. *)
Definition upsertConv_of (params : Params.t WAMessage) (now : Z) : Statement :=
  upsertConv
    (Conv.mk (Params.conversationJid params) (Params.chatType params)
       (nullish (Params.displayName params)) (Params.timestamp params) now).

Definition insertMsg_of (params : Params.t WAMessage) (now : Z) : Statement :=
  insertMsg
    (mkStoredMessage
       (Params.messageId params)
       (Params.conversationJid params)
       (Params.senderJid params)
       (Params.senderE164 params)
       (Params.senderName params)
       (Params.body params)
       (Params.timestamp params)
       (if Params.isFromMe params then 1 else 0)
       (nullish (Params.replyToId params))
       (nullish (Params.mediaPath params))
       (nullish (Params.mediaType params))
       (option_map Params.lat (Params.location params))
       (option_map Params.lon (Params.location params))
       (JSON_stringify (Params.rawMessage params))
       (Params.accountId params)
       now).

Definition insertParticipant_of (params : Params.t WAMessage) (now : Z)
    (participantJid : string) : Statement :=
  insertParticipant (Part.mk (Params.conversationJid params) participantJid None now).

(** The body of [storeMessage(params)], with [now] the value of
    [Date.now()] and [exec] what running a prepared statement does. *)
Definition storeMessage_with (exec : Statement -> M unit)
    (params : Params.t WAMessage) (now : Z) : M unit :=
  s <- this ;;
  if negb (db_open s) then throw NotInitialized
  else
    exec (upsertConv_of params now) ;;
    exec (insertMsg_of params now) ;;
    match Params.chatType params, Params.groupParticipants params with
    | group, Some l =>
        for_of l (fun participantJid => exec (insertParticipant_of params now participantJid))
    | _, _ => ret tt
    end.

(** [storeMessage(params)] on an engine that runs every statement. *)
Definition storeMessage (params : Params.t WAMessage) (now : Z) : M unit :=
  storeMessage_with run params now.

(** A statement on an engine that raises [e] on the statements [fails]
    picks out and runs the others; the statement that fails changes
    nothing. *)
Definition run_or_fail (fails : Statement -> bool) (e : JsError) (st : Statement)
    : M unit :=
  if fails st then throw e else run st.

(** [storeMessage(params)] on such an engine: the [catch] logs and
    rethrows, and what the earlier statements wrote stays written. *)
Definition storeMessage_failing (fails : Statement -> bool) (e : JsError)
    (params : Params.t WAMessage) (now : Z) : M unit :=
  storeMessage_with (run_or_fail fails e) params now.

(** The [conditions] array of [queryMessages]. *)
Definition conditions_of (filter : ExportFilter) : list Condition :=
  (match truthy_string (Filter.from filter) with
   | Some s => [timestamp_ge (Date_getTime s)]
   | None => []
   end)
  ++ (match truthy_string (Filter.to filter) with
      | Some s => [timestamp_le (Date_getTime s)]
      | None => []
      end)
  ++ (match truthy_string (Filter.conversationJid filter) with
      | Some s => [conversation_jid_eq s]
      | None => []
      end)
  ++ (match truthy_string (Filter.accountId filter) with
      | Some s => [account_id_eq s]
      | None => []
      end).

(** [queryMessages(filter)]. *)
Definition queryMessages (filter : ExportFilter) : M (list StoredMessage) :=
  s <- this ;;
  if negb (db_open s) then throw NotInitialized
  else
    match select_messages (conditions_of filter) (truthy_number (Filter.limit filter))
            (file s) with
    | inl e => throw e
    | inr rows => ret rows
    end.

(** [exportMessages(filter)]. *)
Definition exportMessages (filter : ExportFilter) : M (list ExportedConversation) :=
  s <- this ;;
  if negb (db_open s) then throw NotInitialized
  else
    messages <- queryMessages filter ;;
    ret (map_values (fold_left (export_step (file s)) messages [])).

(** [getStats()]. *)
Definition getStats : M Stats.t :=
  s <- this ;;
  if negb (db_open s) then throw NotInitialized
  else
    let msgCount := Z.of_nat (List.length (messages (file s))) in
    let convCount := Z.of_nat (List.length (conversations (file s))) in
    match read_aggregate (sql_min (map timestamp (messages (file s)))) with
    | inl e => throw e
    | inr oldest =>
        match read_aggregate (sql_max (map timestamp (messages (file s)))) with
        | inl e => throw e
        | inr newest => ret (Stats.mk msgCount convCount oldest newest)
        end
    end.

(** ** Specification-side notions *)

(** The statements of one call, as a list. *)
Definition statements_of (params : Params.t WAMessage) (now : Z) : list Statement :=
  upsertConv_of params now
  :: insertMsg_of params now
  :: match Params.chatType params, Params.groupParticipants params with
     | group, Some l => map (insertParticipant_of params now) l
     | _, _ => []
     end.

(** A sequence of ingestion calls, each with its clock reading. *)
Definition store_all (calls : list (Params.t WAMessage * Z)) : M unit :=
  for_of calls (fun c => storeMessage (fst c) (snd c)).

(** Every message row has a conversation row. *)
Definition no_orphans (d : Database) : Prop :=
  forall m, In m (messages d) ->
    exists c, In c (conversations d) /\ Conv.jid c = conversation_jid m.

(** The primary key of [conversations]. *)
Definition unique_jids (d : Database) : Prop :=
  NoDup (map Conv.jid (conversations d)).

(** The most recent non-null name of a history given newest first, or
    [prior] when there is none. *)
Fixpoint most_recent_non_null (newest_first : list (option string))
    (prior : option string) : option string :=
  match newest_first with
  | [] => prior
  | Some n :: _ => Some n
  | None :: older => most_recent_non_null older prior
  end.

(** The display name recorded for [j], null when there is no row. *)
Definition display_name_of (j : string) (d : Database) : option string :=
  match select_conversation j d with
  | Some c => Conv.display_name c
  | None => None
  end.

(** What a filter asks of a row, in the words of the interface: a bound
    that is present and non-empty must parse and hold. *)
Definition satisfies (filter : ExportFilter) (r : StoredMessage) : Prop :=
  (forall d, Filter.from filter = Some d -> d <> "" ->
     exists ms, Date_getTime d = Some ms /\ ms <= timestamp r) /\
  (forall d, Filter.to filter = Some d -> d <> "" ->
     exists ms, Date_getTime d = Some ms /\ timestamp r <= ms) /\
  (forall j, Filter.conversationJid filter = Some j -> j <> "" ->
     conversation_jid r = j) /\
  (forall a, Filter.accountId filter = Some a -> a <> "" ->
     account_id r = a).

Definition ascending (a b : StoredMessage) : Prop := timestamp a <= timestamp b.

(** The keys of a list in order of first appearance. *)
Fixpoint first_occurrences (l : list string) : list string :=
  match l with
  | [] => []
  | x :: rest => x :: filter (fun y => negb (String.eqb y x)) (first_occurrences rest)
  end.

(** The row [r] records the call [params] made at clock reading [now]:
    every column holds the value bound to it, the from-me flag as the
    integer that [Boolean] reads back, absent optional fields as null. *)
Definition row_records (params : Params.t WAMessage) (now : Z) (r : StoredMessage) : Prop :=
  message_id r = Params.messageId params
  /\ conversation_jid r = Params.conversationJid params
  /\ sender_jid r = Params.senderJid params
  /\ sender_e164 r = Params.senderE164 params
  /\ sender_name r = Params.senderName params
  /\ body r = Params.body params
  /\ timestamp r = Params.timestamp params
  /\ is_from_me r = (if Params.isFromMe params then 1 else 0)
  /\ Boolean (is_from_me r) = Params.isFromMe params
  /\ reply_to_id r = Params.replyToId params
  /\ media_path r = Params.mediaPath params
  /\ media_type r = Params.mediaType params
  /\ location_lat r = option_map Params.lat (Params.location params)
  /\ location_lon r = option_map Params.lon (Params.location params)
  /\ raw_message r = JSON_stringify (Params.rawMessage params)
  /\ account_id r = Params.accountId params
  /\ created_at r = now.

(** The participants table after a run of [insertParticipant] statements. *)
Definition insert_participants (rows : list Part.t) (old : list Part.t) : list Part.t :=
  fold_left (fun acc r => insert_or_ignore_participant r acc) rows old.

(** The conversation row one call binds. *)
Definition conv_of (params : Params.t WAMessage) (now : Z) : ConversationMetadata :=
  Conv.mk (Params.conversationJid params) (Params.chatType params)
    (Params.displayName params) (Params.timestamp params) now.

(** The test [conversation_jid = j] on a message row. *)
Definition in_conversation (j : string) (m : StoredMessage) : bool :=
  String.eqb (conversation_jid m) j.

(** The group the export holds for [j] once the rows [stream] are read. *)
Definition group_of (d : Database) (stream : list StoredMessage) (j : string)
    : ExportedConversation :=
  Exported.mk j
    (match get_conversation j d with Some c => fst c | None => direct end)
    (match get_conversation j d with Some c => snd c | None => None end)
    (map exported_message (filter (in_conversation j) stream)).

(** The binding of the map for [j]. *)
Definition entry (d : Database) (stream : list StoredMessage) (j : string)
    : string * ExportedConversation :=
  (j, group_of d stream j).

(** The stores a program can build: a new object on a fresh file, then
    any sequence of [initialize], [close] and [storeMessage]. *)
Inductive reachable : WhatsAppHistoryStore -> Prop :=
| reachable_new : reachable (mkStore false empty_database)
| reachable_initialize s : reachable s -> reachable (snd (initialize s))
| reachable_close s : reachable s -> reachable (snd (close s))
| reachable_storeMessage s params now :
    reachable s -> reachable (snd (storeMessage params now s)).

(** ** Stored values that read back

    The bounds under which a read returns and returns what is stored. *)

(** The three INTEGER columns of a message row are safe integers. *)
Definition safe_row (r : StoredMessage) : Prop :=
  safe_integer (timestamp r) = true
  /\ safe_integer (is_from_me r) = true
  /\ safe_integer (created_at r) = true.

Definition safe_rows (d : Database) : Prop := Forall safe_row (messages d).

(** The message timestamps are safe integers. *)
Definition safe_timestamps (d : Database) : Prop :=
  Forall (fun m => safe_integer (timestamp m) = true) (messages d).

(** A limit, when given, is a 64-bit integer. *)
Definition limit_fits (filter : ExportFilter) : Prop :=
  forall n, Filter.limit filter = Some n -> - 2 ^ 63 <= n < 2 ^ 63.

(** A text without NUL character. *)
Definition nul_free (s : string) : Prop := ~ In NUL (list_ascii_of_string s).

Definition nul_free_option (o : option string) : Prop :=
  forall s, o = Some s -> nul_free s.

(** Every text of a call is without NUL character. *)
Definition nul_free_params (params : Params.t WAMessage) : Prop :=
  nul_free (Params.messageId params)
  /\ nul_free (Params.conversationJid params)
  /\ nul_free_option (Params.senderJid params)
  /\ nul_free_option (Params.senderE164 params)
  /\ nul_free_option (Params.senderName params)
  /\ nul_free (Params.body params)
  /\ nul_free_option (Params.replyToId params)
  /\ nul_free_option (Params.mediaPath params)
  /\ nul_free_option (Params.mediaType params)
  /\ nul_free (JSON_stringify (Params.rawMessage params))
  /\ nul_free (Params.accountId params)
  /\ nul_free_option (Params.displayName params).

(** The value a property holds at run time, as far as the from-me flag
    goes: the ingested record holds a boolean, a returned row a number. *)
Inductive JsValue :=
| js_boolean (b : bool)
| js_number (n : Z).

(** [params.isFromMe], declared [boolean]. *)
Definition ingested_is_from_me (params : Params.t WAMessage) : JsValue :=
  js_boolean (Params.isFromMe params).

(** [row.is_from_me] of a returned row: the INTEGER column, which the
    driver hands back as a number. *)
Definition returned_is_from_me (r : StoredMessage) : JsValue :=
  js_number (is_from_me r).

(** The statements of a list that run before the first one that fails. *)
Fixpoint before_failure (fails : Statement -> bool) (sts : list Statement)
    : list Statement :=
  match sts with
  | [] => []
  | st :: rest => if fails st then [] else st :: before_failure fails rest
  end.

(** ** Primary keys of the other two tables *)

Definition message_key (m : StoredMessage) : string * string :=
  (conversation_jid m, message_id m).

Definition participant_key (p : Part.t) : string * string :=
  (Part.conversation_jid p, Part.participant_jid p).

Definition unique_message_keys (d : Database) : Prop :=
  NoDup (map message_key (messages d)).

Definition unique_participant_keys (d : Database) : Prop :=
  NoDup (map participant_key (participants d)).

(** The test "this row has the key of the call". *)
Definition has_key_of (params : Params.t WAMessage) (m : StoredMessage) : bool :=
  message_key_eqb (Params.conversationJid params) (Params.messageId params) m.

(** ** The export command (src/cli/whatsapp-cli.ts)

    A string is the sequence of its UTF-8 bytes; the three characters the
    CSV code looks for are ASCII and are no part of a longer sequence. *)

Definition quote : ascii := "034"%char.
Definition comma : ascii := ","%char.
Definition newline : ascii := "010"%char.

(** [value.includes(c)] for a one-character [c]. *)
Fixpoint includes (c : ascii) (value : string) : bool :=
  match value with
  | EmptyString => false
  | String x rest => Ascii.eqb x c || includes c rest
  end.

(** [value.replace] of every double-quote character by two of them. *)
Fixpoint double_quotes (value : string) : string :=
  match value with
  | EmptyString => EmptyString
  | String x rest =>
      if Ascii.eqb x quote then String quote (String quote (double_quotes rest))
      else String x (double_quotes rest)
  end.

(** [csvEscape(value)]. *)
Definition csvEscape (value : string) : string :=
  if includes quote value || includes comma value || includes newline value
  then String quote (String.append (double_quotes value) (String quote EmptyString))
  else value.

(** An element of the array given to [toCsvRow]; [csv_null] stands for
    both null and undefined. *)
Inductive CsvValue :=
| csv_string (s : string)
| csv_number (n : number)
| csv_null.

(** [String(n)] on a number comes from outside. *)
Variable Number_toString : number -> string.

(** The text of a cell before escaping: [String(val)], or the empty
    string for null and undefined. *)
Definition cell_text (val : CsvValue) : string :=
  match val with
  | csv_string s => s
  | csv_number n => Number_toString n
  | csv_null => ""
  end.

(** [toCsvRow(values)]. *)
Definition toCsvRow (values : list CsvValue) : string :=
  String.concat ","
    (map (fun val =>
            match val with
            | csv_null => ""
            | _ => csvEscape (cell_text val)
            end) values).

(** [validateIsoDate(dateStr)]. *)
Definition validateIsoDate (dateStr : string) : bool :=
  match Date_getTime dateStr with
  | Some _ => true
  | None => false
  end.

(** What the user sees of one run: the file written, or the message
    printed before [exit(1)]. *)
Inductive Outcome :=
| exported (outputPath content : string)
| failed (message : string).

Variable toLowerCase : string -> string.
Variable resolveUserPath : string -> string.
(** [writeFile(path, content)]: [None] when the file is written, the
    error of the rejected promise otherwise. *)
Variable writeFile : string -> string -> option JsError.
(** The message of the [RangeError] of node:sqlite. *)
Variable RangeError_message : Z -> string.
(** [JSON.stringify(conversations, null, 2)] and [JSON.stringify(msg)]. *)
Variable JSON_stringify_conversations : list ExportedConversation -> string.
Variable JSON_stringify_row : StoredMessage -> string.

Definition headers : list CsvValue :=
  map csv_string
    ["message_id"; "conversation_jid"; "sender_jid"; "sender_e164"; "sender_name";
     "body"; "timestamp"; "is_from_me"; "reply_to_id"; "media_path"; "media_type";
     "location_lat"; "location_lon"; "account_id"].

Definition csv_optional_string (o : option string) : CsvValue :=
  match o with
  | Some s => csv_string s
  | None => csv_null
  end.

Definition csv_optional_number (o : option number) : CsvValue :=
  match o with
  | Some n => csv_number n
  | None => csv_null
  end.

Definition csv_integer (z : Z) : CsvValue := csv_number (QArith_base.inject_Z z).

(** The array built for one message row. *)
Definition row_values (msg : StoredMessage) : list CsvValue :=
  [csv_string (message_id msg);
   csv_string (conversation_jid msg);
   csv_optional_string (sender_jid msg);
   csv_optional_string (sender_e164 msg);
   csv_optional_string (sender_name msg);
   csv_string (body msg);
   csv_integer (timestamp msg);
   csv_integer (is_from_me msg);
   csv_optional_string (reply_to_id msg);
   csv_optional_string (media_path msg);
   csv_optional_string (media_type msg);
   csv_optional_number (location_lat msg);
   csv_optional_number (location_lon msg);
   csv_string (account_id msg)].

(** [String(opts.limit)] in the error message. *)
Definition limit_text (l : ParsedInt) : string :=
  match l with
  | NaN => "NaN"
  | Int z => Number_toString (QArith_base.inject_Z z)
  end.

Definition truthy (o : option string) : bool :=
  match truthy_string o with
  | Some _ => true
  | None => false
  end.

(** The checks the action makes before it builds the store; each throw
    carries the message of the source. *)
Definition validate_options (opts : Options.t) : M unit :=
  let format := option_map toLowerCase (Options.format opts) in
  (if match format with
      | Some f => existsb (String.eqb f) ["json"; "csv"; "jsonl"]
      | None => false
      end
   then ret tt
   else throw (Error (String.append "Invalid format: "
                 (String.append
                    (match Options.format opts with Some f => f | None => "undefined" end)
                    ". Must be one of: json, csv, jsonl")))) ;;
  (match truthy_string (Options.from opts) with
   | Some d =>
       if validateIsoDate d then ret tt
       else throw (Error (String.append "Invalid --from date: "
                     (String.append d ". Use ISO 8601 format (e.g., 2024-01-01)")))
   | None => ret tt
   end) ;;
  (match truthy_string (Options.to opts) with
   | Some d =>
       if validateIsoDate d then ret tt
       else throw (Error (String.append "Invalid --to date: "
                     (String.append d ". Use ISO 8601 format (e.g., 2024-12-31)")))
   | None => ret tt
   end) ;;
  match Options.limit opts with
  | Some l =>
      if match l with NaN => true | Int z => z <=? 0 end
      then throw (Error (String.append "Invalid --limit: "
                    (String.append (limit_text l) ". Must be a positive number")))
      else ret tt
  | None => ret tt
  end.

(** The filter object the action builds.  A NaN limit cannot get past the
    checks; as a falsy value it would count as absent. *)
Definition filter_of (opts : Options.t) : ExportFilter :=
  Filter.mk (Options.from opts) (Options.to opts) (Options.conversation opts)
    (Options.account opts)
    (match Options.limit opts with
     | Some (Int z) => Some z
     | Some NaN => None
     | None => None
     end).

(** [lines.join] with the newline separator. *)
Definition join_lines (lines : list string) : string :=
  String.concat (String newline EmptyString) lines.

(** The export by format: the branches on [format] in the action. *)
Definition export_content (format : option string) (filter : ExportFilter) : M string :=
  match format with
  | Some "json" =>
      conversations <- exportMessages filter ;;
      ret (JSON_stringify_conversations conversations)
  | Some "csv" =>
      messages <- queryMessages filter ;;
      ret (join_lines (toCsvRow headers
                       :: map (fun msg => toCsvRow (row_values msg)) messages))
  | _ =>
      messages <- queryMessages filter ;;
      ret (join_lines (map JSON_stringify_row messages))
  end.

(** The [try] block of the action: checks, store, export by format,
    write, close.  [fault] is what happens to [store.initialize()].
    Progress lines of [--verbose] go to the log only. *)
Definition export_history_body (fault : InitializeFault) (opts : Options.t)
    : M (string * string) :=
  validate_options opts ;;
  let format := option_map toLowerCase (Options.format opts) in
  initialize_with fault ;;
  (if Options.verbose opts then (_ <- getStats ;; ret tt) else ret tt) ;;
  let filter := filter_of opts in
  outputContent <- export_content format filter ;;
  let outputPath := resolveUserPath (Options.output opts) in
  (match writeFile outputPath outputContent with
   | Some e => throw e
   | None => ret tt
   end) ;;
  close ;;
  ret (outputPath, outputContent).

(** [err.message]. *)
Definition error_message (e : JsError) : string :=
  match e with
  | Error message => message
  | RangeError value => RangeError_message value
  end.

(** The action on a new store object over the database file [d]: the
    [catch] turns a thrown error into the printed message and
    [exit(1)], and closes nothing. *)
Definition export_history (fault : InitializeFault) (opts : Options.t) (d : Database)
    : Outcome * WhatsAppHistoryStore :=
  match export_history_body fault opts (mkStore false d) with
  | (inr (outputPath, outputContent), s) => (exported outputPath outputContent, s)
  | (inl e, s) => (failed (String.append "Export failed: " (error_message e)), s)
  end.

(** ** A reader of one CSV record

    The usual reading of a record: fields are separated by commas, a
    field that starts with a quote runs to its closing quote, and two
    quotes inside it stand for one. *)
Inductive ReaderState := FieldStart | Unquoted | Quoted | QuoteSeen.

Definition snoc (s : string) (c : ascii) : string :=
  String.append s (String c EmptyString).

Fixpoint csv_read (st : ReaderState) (cur : string) (s : string) : list string :=
  match s with
  | EmptyString => [cur]
  | String c rest =>
      match st with
      | FieldStart =>
          if Ascii.eqb c quote then csv_read Quoted EmptyString rest
          else if Ascii.eqb c comma then EmptyString :: csv_read FieldStart EmptyString rest
          else csv_read Unquoted (String c EmptyString) rest
      | Unquoted =>
          if Ascii.eqb c comma then cur :: csv_read FieldStart EmptyString rest
          else csv_read Unquoted (snoc cur c) rest
      | Quoted =>
          if Ascii.eqb c quote then csv_read QuoteSeen cur rest
          else csv_read Quoted (snoc cur c) rest
      | QuoteSeen =>
          if Ascii.eqb c quote then csv_read Quoted (snoc cur quote) rest
          else if Ascii.eqb c comma then cur :: csv_read FieldStart EmptyString rest
          else csv_read Unquoted (snoc cur c) rest
      end
  end.

Definition csv_fields (record : string) : list string :=
  csv_read FieldStart EmptyString record.

(** The format test of [validate_options]. *)
Definition format_accepted (opts : Options.t) : bool :=
  match option_map toLowerCase (Options.format opts) with
  | Some f => existsb (String.eqb f) ["json"; "csv"; "jsonl"]
  | None => false
  end.

(** The options pass every check. *)
Definition options_valid (opts : Options.t) : Prop :=
  format_accepted opts = true
  /\ (forall d, Options.from opts = Some d -> d <> "" -> validateIsoDate d = true)
  /\ (forall d, Options.to opts = Some d -> d <> "" -> validateIsoDate d = true)
  /\ (forall l, Options.limit opts = Some l -> exists z, l = Int z /\ 0 < z).

(** ** Shapes of stored rows *)

(** A message row holds a from-me flag of 0 or 1 and both coordinates
    or neither. *)
Definition message_shape (m : StoredMessage) : Prop :=
  (is_from_me m = 0 \/ is_from_me m = 1)
  /\ (location_lat m = None <-> location_lon m = None).

(** A participant row holds no phone number and belongs to a
    conversation that has a row. *)
Definition participant_shape (d : Database) (p : Part.t) : Prop :=
  Part.participant_e164 p = None
  /\ exists c, In c (conversations d) /\ Conv.jid c = Part.conversation_jid p.


(** The participant rows one call binds, in order. *)
Definition participant_rows (params : Params.t WAMessage) (now : Z) : list Part.t :=
  match Params.chatType params, Params.groupParticipants params with
  | group, Some l => map (fun pj => Part.mk (Params.conversationJid params) pj None now) l
  | _, _ => []
  end.

(** The stored rows a filter matches, in the order of the query, and
    the ones left by its limit. *)
Definition matching_rows (filter : ExportFilter) (d : Database) : list StoredMessage :=
  order_by_timestamp (List.filter (where_clause (conditions_of filter)) (messages d)).

Definition selected_rows (filter : ExportFilter) (d : Database) : list StoredMessage :=
  match Filter.limit filter with
  | Some n => if 0 <? n then firstn (Z.to_nat n) (matching_rows filter d)
              else matching_rows filter d
  | None => matching_rows filter d
  end.

(** ** Running the methods *)

Lemma for_of_run {A} (f : A -> Statement) (l : list A) (s : WhatsAppHistoryStore) :
  for_of l (fun x => run (f x)) s
  = (inr tt, mkStore (db_open s) (exec_statements (map f l) (file s))).
Proof.
  revert s. induction l as [|x l IH]; intros s.
  - destruct s; reflexivity.
  - cbn [for_of map]. unfold bind at 1. cbn [run]. rewrite IH. reflexivity.
Qed.

Lemma storeMessage_open (params : Params.t WAMessage) (now : Z) (d : Database) :
  storeMessage params now (mkStore true d)
  = (inr tt, mkStore true (exec_statements (statements_of params now) d)).
Proof.
  unfold storeMessage, storeMessage_with, statements_of.
  unfold bind at 1. cbn [this db_open negb].
  unfold bind at 1. cbn [run db_open file].
  unfold bind at 1. cbn [run db_open file].
  destruct (Params.chatType params); [reflexivity|].
  destruct (Params.groupParticipants params) as [l|]; [|reflexivity].
  rewrite for_of_run. reflexivity.
Qed.

Lemma storeMessage_closed (params : Params.t WAMessage) (now : Z) (d : Database) :
  storeMessage params now (mkStore false d) = (inl NotInitialized, mkStore false d).
Proof. reflexivity. Qed.

Lemma exec_statements_app (a b : list Statement) (d : Database) :
  exec_statements (a ++ b) d = exec_statements b (exec_statements a d).
Proof. apply fold_left_app. Qed.

Lemma exec_participants_conversations (rows : list Part.t) (d : Database) :
  conversations (exec_statements (map insertParticipant rows) d) = conversations d
  /\ messages (exec_statements (map insertParticipant rows) d) = messages d.
Proof.
  revert d. induction rows as [|r rows IH]; intros d; [split; reflexivity|].
  change (exec_statements (map insertParticipant (r :: rows)) d)
    with (exec_statements (map insertParticipant rows)
            (exec_statement (insertParticipant r) d)).
  destruct (IH (exec_statement (insertParticipant r) d)) as [-> ->].
  split; reflexivity.
Qed.

Lemma statements_of_tail (params : Params.t WAMessage) (now : Z) :
  exists rows,
    statements_of params now
    = upsertConv_of params now :: insertMsg_of params now :: map insertParticipant rows.
Proof.
  unfold statements_of.
  destruct (Params.chatType params).
  - exists []. reflexivity.
  - destruct (Params.groupParticipants params) as [l|].
    + exists (map (fun pj => Part.mk (Params.conversationJid params) pj None now) l).
      rewrite map_map. reflexivity.
    + exists []. reflexivity.
Qed.

(** The tables after one call. *)
Lemma statements_of_tables (params : Params.t WAMessage) (now : Z) (d : Database) :
  conversations (exec_statements (statements_of params now) d)
  = upsert_conversation
      (Conv.mk (Params.conversationJid params) (Params.chatType params)
         (Params.displayName params) (Params.timestamp params) now)
      (conversations d)
  /\ exists row,
       insertMsg_of params now = insertMsg row
       /\ messages (exec_statements (statements_of params now) d)
          = insert_or_replace_message row (messages d).
Proof.
  destruct (statements_of_tail params now) as [rows ->].
  change (exec_statements
            (upsertConv_of params now :: insertMsg_of params now
             :: map insertParticipant rows) d)
    with (exec_statements (map insertParticipant rows)
            (exec_statement (insertMsg_of params now)
               (exec_statement (upsertConv_of params now) d))).
  destruct (exec_participants_conversations rows
              (exec_statement (insertMsg_of params now)
                 (exec_statement (upsertConv_of params now) d))) as [-> ->].
  split; [reflexivity|].
  eexists. split; reflexivity.
Qed.


(** ** Sorting and reading back *)

Lemma insert_by_timestamp_perm (x : StoredMessage) (l : list StoredMessage) :
  Permutation (insert_by_timestamp x l) (x :: l).
Proof.
  induction l as [|y l IH]; cbn [insert_by_timestamp]; [apply Permutation_refl|].
  destruct (timestamp x <=? timestamp y); [apply Permutation_refl|].
  eapply Permutation_trans; [apply perm_skip, IH|apply perm_swap].
Qed.

Lemma order_by_timestamp_perm (l : list StoredMessage) :
  Permutation (order_by_timestamp l) l.
Proof.
  induction l as [|x l IH]; cbn [order_by_timestamp]; [constructor|].
  eapply Permutation_trans; [apply insert_by_timestamp_perm|apply perm_skip, IH].
Qed.

Lemma insert_by_timestamp_sorted (x : StoredMessage) (l : list StoredMessage) :
  StronglySorted ascending l -> StronglySorted ascending (insert_by_timestamp x l).
Proof.
  induction l as [|y l IH]; intros Hs; cbn [insert_by_timestamp].
  - constructor; constructor.
  - inversion Hs as [|? ? Hs' Hall]; subst.
    destruct (Z.leb_spec (timestamp x) (timestamp y)) as [Hle|Hgt].
    + constructor; [exact Hs|]. constructor; [exact Hle|].
      eapply Forall_impl; [|exact Hall]. unfold ascending. intros a Ha. lia.
    + constructor; [apply IH, Hs'|].
      assert (Hp : Permutation (x :: l) (insert_by_timestamp x l))
        by (apply Permutation_sym, insert_by_timestamp_perm).
      eapply Permutation_Forall; [exact Hp|].
      constructor; [unfold ascending; lia|exact Hall].
Qed.

Lemma order_by_timestamp_sorted (l : list StoredMessage) :
  StronglySorted ascending (order_by_timestamp l).
Proof.
  induction l as [|x l IH]; cbn [order_by_timestamp]; [constructor|].
  apply insert_by_timestamp_sorted, IH.
Qed.

Lemma Forall_subset {A} (P : A -> Prop) (l l' : list A) :
  (forall x, In x l' -> In x l) -> Forall P l -> Forall P l'.
Proof.
  intros Hsub Hl. apply Forall_forall. intros x Hx.
  rewrite Forall_forall in Hl. apply Hl, Hsub, Hx.
Qed.

Lemma firstn_In {A} (n : nat) (l : list A) (x : A) : In x (firstn n l) -> In x l.
Proof.
  intros H. rewrite <- (firstn_skipn n l). apply in_or_app. left. exact H.
Qed.

Lemma unsafe_column_safe (r : StoredMessage) : safe_row r -> unsafe_column r = None.
Proof.
  intros (H1 & H2 & H3). unfold unsafe_column. rewrite H1, H2, H3. reflexivity.
Qed.

Lemma read_all_safe (rows : list StoredMessage) :
  Forall safe_row rows -> read_all rows = inr (map read_row rows).
Proof.
  induction 1 as [|r rows Hr _ IH]; [reflexivity|].
  cbn [read_all map]. rewrite (unsafe_column_safe r Hr), IH. reflexivity.
Qed.

Lemma fits_int64_spec (n : Z) : fits_int64 n = true <-> - 2 ^ 63 <= n < 2 ^ 63.
Proof. unfold fits_int64. rewrite andb_true_iff, Z.leb_le, Z.ltb_lt. reflexivity. Qed.

Lemma safe_integer_spec (z : Z) :
  safe_integer z = true <-> - (2 ^ 53 - 1) <= z <= 2 ^ 53 - 1.
Proof.
  unfold safe_integer, MAX_SAFE_INTEGER. rewrite andb_true_iff, !Z.leb_le. reflexivity.
Qed.

(** The rows a query selects, before they are read back. *)
Lemma select_messages_safe (conditions : list Condition) (limitClause : option Z)
    (d : Database) :
  safe_rows d ->
  (forall n, limitClause = Some n -> - 2 ^ 63 <= n < 2 ^ 63) ->
  select_messages conditions limitClause d
  = inr (map read_row
           (match limitClause with
            | Some n =>
                if n <? 0 then order_by_timestamp (filter (where_clause conditions) (messages d))
                else firstn (Z.to_nat n)
                       (order_by_timestamp (filter (where_clause conditions) (messages d)))
            | None => order_by_timestamp (filter (where_clause conditions) (messages d))
            end)).
Proof.
  intros Hsafe Hfits. unfold select_messages, apply_limit.
  assert (Hall : Forall safe_row
                   (order_by_timestamp (filter (where_clause conditions) (messages d)))).
  { eapply Forall_subset; [|exact Hsafe]. intros x Hx.
    apply (Permutation_in x (order_by_timestamp_perm _)) in Hx.
    apply filter_In in Hx. apply Hx. }
  destruct limitClause as [n|]; [|apply read_all_safe, Hall].
  rewrite (proj2 (fits_int64_spec n) (Hfits n eq_refl)).
  destruct (n <? 0); [apply read_all_safe, Hall|].
  apply read_all_safe. eapply Forall_subset; [|exact Hall].
  intros x. apply firstn_In.
Qed.

Lemma truthy_number_fits (filter : ExportFilter) :
  limit_fits filter ->
  forall n, truthy_number (Filter.limit filter) = Some n -> - 2 ^ 63 <= n < 2 ^ 63.
Proof.
  intros H n. unfold truthy_number.
  destruct (Filter.limit filter) as [m|] eqn:El; [|discriminate].
  destruct (m =? 0); [discriminate|]. intros E. injection E as <-. apply H, El.
Qed.

Lemma queryMessages_run (filter : ExportFilter) (d : Database) :
  queryMessages filter (mkStore true d)
  = (select_messages (conditions_of filter) (truthy_number (Filter.limit filter)) d,
     mkStore true d).
Proof.
  unfold queryMessages, bind, this, throw, ret. cbn [db_open negb file].
  destruct (select_messages _ _ d); reflexivity.
Qed.

Lemma read_row_timestamp (r : StoredMessage) : timestamp (read_row r) = timestamp r.
Proof. reflexivity. Qed.

Lemma read_rows_sorted (rows : list StoredMessage) :
  StronglySorted ascending rows -> StronglySorted ascending (map read_row rows).
Proof.
  induction 1 as [|r rows _ IH Hall]; [constructor|]. cbn [map].
  constructor; [exact IH|]. apply Forall_forall. intros x Hx.
  apply in_map_iff in Hx. destruct Hx as (y & <- & Hy).
  rewrite Forall_forall in Hall. exact (Hall y Hy).
Qed.

Lemma nul_free_cons (c : ascii) (s : string) :
  nul_free (String c s) <-> c <> NUL /\ nul_free s.
Proof.
  unfold nul_free. cbn [list_ascii_of_string In]. split.
  - intros H. split; [intros E; apply H; left; exact E|].
    intros Hin. apply H. right. exact Hin.
  - intros [Hc Hs] [E|Hin]; [exact (Hc E)|exact (Hs Hin)].
Qed.

Lemma read_text_nul_free (s : string) : nul_free s -> read_text s = s.
Proof.
  induction s as [|c s IH]; [reflexivity|]. intros H.
  apply nul_free_cons in H. destruct H as [Hc Hs]. cbn [read_text].
  destruct (Ascii.eqb_spec c NUL) as [E|_]; [contradiction|].
  rewrite (IH Hs). reflexivity.
Qed.

Lemma read_text_option_nul_free (o : option string) :
  nul_free_option o -> option_map read_text o = o.
Proof.
  destruct o as [s|]; [|reflexivity]. intros H. cbn.
  rewrite (read_text_nul_free s (H s eq_refl)). reflexivity.
Qed.

Lemma where_clause_nil (l : list StoredMessage) : filter (where_clause []) l = l.
Proof.
  induction l as [|x l IH]; [reflexivity|]. cbn. f_equal. exact IH.
Qed.

(** A query that returns: the selected rows, read back. *)
Lemma queryMessages_open (filter : ExportFilter) (d : Database) :
  safe_rows d -> limit_fits filter ->
  queryMessages filter (mkStore true d)
  = (inr (map read_row (selected_rows filter d)), mkStore true d).
Proof.
  intros Hsafe Hfits. rewrite queryMessages_run.
  rewrite (select_messages_safe _ _ d Hsafe (truthy_number_fits filter Hfits)).
  unfold selected_rows, matching_rows, truthy_number.
  destruct (Filter.limit filter) as [n|]; [|reflexivity].
  destruct (Z.eqb_spec n 0) as [->|Hn]; [reflexivity|].
  destruct (Z.ltb_spec n 0), (Z.ltb_spec 0 n); try reflexivity; lia.
Qed.

Lemma selected_rows_sorted (filter : ExportFilter) (d : Database) :
  StronglySorted ascending (selected_rows filter d).
Proof.
  unfold selected_rows, matching_rows.
  assert (Hfirst : forall n l, StronglySorted ascending l ->
                     StronglySorted ascending (firstn n l)).
  { induction n as [|n IH]; intros l Hs; [constructor|].
    destruct l as [|x l]; [constructor|]. cbn [firstn].
    inversion Hs as [|? ? Hs' Hall]; subst. constructor; [apply IH, Hs'|].
    eapply Forall_subset; [|exact Hall]. intros y. apply firstn_In. }
  destruct (Filter.limit filter) as [n|]; [|apply order_by_timestamp_sorted].
  destruct (0 <? n); [|apply order_by_timestamp_sorted].
  apply Hfirst, order_by_timestamp_sorted.
Qed.

Lemma selected_rows_stored (filter : ExportFilter) (d : Database) (r : StoredMessage) :
  In r (selected_rows filter d) ->
  In r (messages d) /\ where_clause (conditions_of filter) r = true.
Proof.
  intros H. apply filter_In.
  apply (Permutation_in r (order_by_timestamp_perm _)).
  unfold selected_rows, matching_rows in H.
  destruct (Filter.limit filter) as [n|]; [|exact H].
  destruct (0 <? n); [|exact H]. apply firstn_In in H. exact H.
Qed.

(** ** Closed stores *)

Lemma methods_closed (d : Database) (params : Params.t WAMessage) (now : Z)
    (filter : ExportFilter) :
  let s := mkStore false d in
  storeMessage params now s = (inl NotInitialized, s)
  /\ queryMessages filter s = (inl NotInitialized, s)
  /\ exportMessages filter s = (inl NotInitialized, s)
  /\ getStats s = (inl NotInitialized, s).
Proof. cbv zeta. repeat split; reflexivity. Qed.

Lemma close_closes (s0 : WhatsAppHistoryStore) :
  snd (close s0) = mkStore false (file s0).
Proof. unfold close. destruct s0 as [[|] d]; reflexivity. Qed.

(** C9: on a store that was never initialized (its handle is null) and on
    a store after [close], each of [storeMessage], [queryMessages],
    [exportMessages] and [getStats] throws the not-initialized error and
    leaves the store as it was. *)
Theorem operations_raise_when_not_initialized :
  (forall (d : Database) (params : Params.t WAMessage) (now : Z) (filter : ExportFilter),
      let s := mkStore false d in
      storeMessage params now s = (inl NotInitialized, s)
      /\ queryMessages filter s = (inl NotInitialized, s)
      /\ exportMessages filter s = (inl NotInitialized, s)
      /\ getStats s = (inl NotInitialized, s))
  /\ (forall (s0 : WhatsAppHistoryStore) (params : Params.t WAMessage) (now : Z)
        (filter : ExportFilter),
      let s := snd (close s0) in
      storeMessage params now s = (inl NotInitialized, s)
      /\ queryMessages filter s = (inl NotInitialized, s)
      /\ exportMessages filter s = (inl NotInitialized, s)
      /\ getStats s = (inl NotInitialized, s)).
Proof.
  split.
  - intros d params now filter. apply methods_closed.
  - intros s0 params now filter. cbv zeta. rewrite close_closes.
    apply methods_closed.
Qed.

(** ** Statistics *)

Lemma fold_min_spec (l : list Z) (x : Z) :
  let m := fold_left Z.min l x in
  In m (x :: l) /\ m <= x /\ (forall y, In y l -> m <= y).
Proof.
  revert x. induction l as [|a l IH]; intros x; cbn [fold_left].
  - cbv zeta. split; [left; reflexivity|]. split; [lia|]. intros y [].
  - specialize (IH (Z.min x a)). cbv zeta in *. destruct IH as (Hin & Hle & Hall).
    split; [|split].
    + destruct Hin as [Hin|Hin].
      * rewrite <- Hin. destruct (Z.min_spec x a) as [[_ ->]|[_ ->]];
          [left; reflexivity|right; left; reflexivity].
      * right; right; exact Hin.
    + lia.
    + intros y [<-|Hy]; [lia|]. apply Hall, Hy.
Qed.

Lemma fold_max_spec (l : list Z) (x : Z) :
  let m := fold_left Z.max l x in
  In m (x :: l) /\ x <= m /\ (forall y, In y l -> y <= m).
Proof.
  revert x. induction l as [|a l IH]; intros x; cbn [fold_left].
  - cbv zeta. split; [left; reflexivity|]. split; [lia|]. intros y [].
  - specialize (IH (Z.max x a)). cbv zeta in *. destruct IH as (Hin & Hle & Hall).
    split; [|split].
    + destruct Hin as [Hin|Hin].
      * rewrite <- Hin. destruct (Z.max_spec x a) as [[_ ->]|[_ ->]];
          [right; left; reflexivity|left; reflexivity].
      * right; right; exact Hin.
    + lia.
    + intros y [<-|Hy]; [lia|]. apply Hall, Hy.
Qed.

Lemma sql_min_spec (l : list Z) :
  match sql_min l with
  | None => l = []
  | Some m => In m l /\ forall y, In y l -> m <= y
  end.
Proof.
  destruct l as [|x l]; [reflexivity|]. cbn [sql_min].
  destruct (fold_min_spec l x) as (Hin & Hle & Hall). split; [exact Hin|].
  intros y [<-|Hy]; [exact Hle|apply Hall, Hy].
Qed.

Lemma sql_max_spec (l : list Z) :
  match sql_max l with
  | None => l = []
  | Some m => In m l /\ forall y, In y l -> y <= m
  end.
Proof.
  destruct l as [|x l]; [reflexivity|]. cbn [sql_max].
  destruct (fold_max_spec l x) as (Hin & Hle & Hall). split; [exact Hin|].
  intros y [<-|Hy]; [exact Hle|apply Hall, Hy].
Qed.

Lemma read_aggregate_safe (l : list Z) (o : option Z) :
  Forall (fun z => safe_integer z = true) l ->
  match o with Some z => In z l | None => True end ->
  read_aggregate o = inr o.
Proof.
  intros Hl Ho. destruct o as [z|]; [|reflexivity]. cbn [read_aggregate].
  rewrite Forall_forall in Hl. rewrite (Hl z Ho). reflexivity.
Qed.

(** [getStats] when the aggregates can be read. *)
Lemma getStats_safe (d : Database) :
  safe_timestamps d ->
  getStats (mkStore true d)
  = (inr (Stats.mk (Z.of_nat (List.length (messages d)))
            (Z.of_nat (List.length (conversations d)))
            (sql_min (map timestamp (messages d)))
            (sql_max (map timestamp (messages d)))),
     mkStore true d).
Proof.
  intros Hsafe.
  assert (Hl : Forall (fun z => safe_integer z = true) (map timestamp (messages d))).
  { apply Forall_forall. intros z Hz. apply in_map_iff in Hz.
    destruct Hz as (m & <- & Hm). unfold safe_timestamps in Hsafe.
    rewrite Forall_forall in Hsafe. apply Hsafe, Hm. }
  unfold getStats, bind, this, throw, ret. cbn [db_open negb file].
  rewrite (read_aggregate_safe (map timestamp (messages d))); [|exact Hl|].
  2:{ pose proof (sql_min_spec (map timestamp (messages d))) as H.
      destruct (sql_min (map timestamp (messages d))); [apply H|exact I]. }
  rewrite (read_aggregate_safe (map timestamp (messages d))); [|exact Hl|].
  2:{ pose proof (sql_max_spec (map timestamp (messages d))) as H.
      destruct (sql_max (map timestamp (messages d))); [apply H|exact I]. }
  reflexivity.
Qed.

(** C8: on an open store whose message timestamps are safe integers
    [getStats] returns the number of message rows, the number of
    conversation rows, and the least and greatest message timestamp; with
    no message both bounds are null, and on the empty database both
    counts are zero. *)
Theorem getStats_counts_and_bounds (d : Database) :
  safe_timestamps d ->
  exists st,
    getStats (mkStore true d) = (inr st, mkStore true d)
    /\ Stats.totalMessages st = Z.of_nat (List.length (messages d))
    /\ Stats.totalConversations st = Z.of_nat (List.length (conversations d))
    /\ (messages d = [] ->
        Stats.oldestMessage st = None /\ Stats.newestMessage st = None
        /\ Stats.totalMessages st = 0)
    /\ (messages d <> [] ->
        exists lo hi,
          Stats.oldestMessage st = Some lo /\ Stats.newestMessage st = Some hi
          /\ In lo (map timestamp (messages d)) /\ In hi (map timestamp (messages d))
          /\ forall m, In m (messages d) -> lo <= timestamp m <= hi)
    /\ (d = empty_database ->
        Stats.totalMessages st = 0 /\ Stats.totalConversations st = 0
        /\ Stats.oldestMessage st = None /\ Stats.newestMessage st = None).
Proof.
  intros Hsafe.
  eexists. split; [exact (getStats_safe d Hsafe)|].
  cbn [Stats.totalMessages Stats.totalConversations
    Stats.oldestMessage Stats.newestMessage].
  split; [reflexivity|]. split; [reflexivity|]. split; [|split].
  - intros ->. repeat split; reflexivity.
  - intros Hne.
    pose proof (sql_min_spec (map timestamp (messages d))) as Hmin.
    pose proof (sql_max_spec (map timestamp (messages d))) as Hmax.
    destruct (sql_min (map timestamp (messages d))) as [lo|].
    2:{ apply map_eq_nil in Hmin. contradiction. }
    destruct (sql_max (map timestamp (messages d))) as [hi|].
    2:{ apply map_eq_nil in Hmax. contradiction. }
    exists lo, hi. destruct Hmin as [Hlo Hlo'], Hmax as [Hhi Hhi'].
    repeat split; try assumption.
    + apply Hlo', in_map, H.
    + apply Hhi', in_map, H.
  - intros ->. repeat split; reflexivity.
Qed.

(** ** Message rows *)

Lemma insertMsg_of_records (params : Params.t WAMessage) (now : Z) (row : StoredMessage) :
  insertMsg_of params now = insertMsg row -> row_records params now row.
Proof.
  unfold insertMsg_of. intros H. injection H as <-.
  unfold row_records, nullish. cbn.
  repeat split; destruct (Params.isFromMe params); reflexivity.
Qed.

Lemma filter_key_after_replace (row : StoredMessage) (rows : list StoredMessage) :
  filter (message_key_eqb (conversation_jid row) (message_id row))
    (insert_or_replace_message row rows) = [row].
Proof.
  unfold insert_or_replace_message. rewrite filter_app.
  assert (Hnil : forall l,
    filter (message_key_eqb (conversation_jid row) (message_id row))
      (filter (fun r => negb (message_key_eqb (conversation_jid row) (message_id row) r)) l)
    = []).
  { induction l as [|x l IH]; [reflexivity|]. cbn [filter].
    destruct (message_key_eqb (conversation_jid row) (message_id row) x) eqn:E;
      cbn [negb filter]; [exact IH|]. rewrite E. exact IH. }
  rewrite Hnil. cbn [filter app]. unfold message_key_eqb.
  rewrite !String.eqb_refl. reflexivity.
Qed.

(** C1: two consecutive [storeMessage] calls with the same
    (conversationJid, messageId) on an open store both succeed, and then
    the messages table holds exactly one row with that key, each of whose
    columns holds the value of the second call. *)
Theorem storeMessage_twice_keeps_second
    (p1 p2 : Params.t WAMessage) (now1 now2 : Z) (d : Database) :
  Params.conversationJid p1 = Params.conversationJid p2 ->
  Params.messageId p1 = Params.messageId p2 ->
  exists d' r,
    (storeMessage p1 now1 ;; storeMessage p2 now2) (mkStore true d)
    = (inr tt, mkStore true d')
    /\ filter (message_key_eqb (Params.conversationJid p1) (Params.messageId p1))
         (messages d') = [r]
    /\ row_records p2 now2 r.
Proof.
  intros -> ->.
  unfold bind. rewrite storeMessage_open, storeMessage_open.
  destruct (statements_of_tables p2 now2
              (exec_statements (statements_of p1 now1) d)) as (_ & row & Hrow & Hmsgs).
  exists (exec_statements (statements_of p2 now2)
            (exec_statements (statements_of p1 now1) d)), row.
  pose proof (insertMsg_of_records p2 now2 row Hrow) as Hrec.
  split; [reflexivity|]. split; [|exact Hrec].
  rewrite Hmsgs.
  destruct Hrec as (Hmid & Hcj & _). rewrite <- Hmid, <- Hcj.
  apply filter_key_after_replace.
Qed.

Lemma safe_flag (b : bool) : safe_integer (if b then 1 else 0) = true.
Proof. destruct b; reflexivity. Qed.

Lemma read_row_of_call (params : Params.t WAMessage) (now : Z) (row : StoredMessage) :
  insertMsg_of params now = insertMsg row ->
  nul_free_params params ->
  read_row row = row.
Proof.
  unfold insertMsg_of. intros H. injection H as <-.
  intros (H1 & H2 & H3 & H4 & H5 & H6 & H7 & H8 & H9 & H10 & H11 & _).
  unfold read_row, nullish. cbn.
  rewrite !read_text_nul_free by assumption.
  rewrite !read_text_option_nul_free by assumption. reflexivity.
Qed.

(** C7, amended: a message whose texts hold no NUL character and whose
    timestamp and ingestion clock reading are safe integers, ingested
    once into a fresh initialized store, is returned by [queryMessages()]
    as exactly one row; every column of it holds the ingested value, with
    null where an optional field was absent, except that the from-me flag
    comes back as the integer 1 or 0 and not as the boolean. *)
Theorem stored_once_round_trips (params : Params.t WAMessage) (now : Z) :
  nul_free_params params ->
  safe_integer (Params.timestamp params) = true ->
  safe_integer now = true ->
  exists r s',
    (initialize ;; storeMessage params now ;; queryMessages Filter.empty)
      (mkStore false empty_database)
    = (inr [r], s')
    /\ row_records params now r.
Proof.
  intros Hnul Hts Hnow.
  unfold bind at 1. cbn [initialize initialize_with db_open file].
  unfold bind at 1. rewrite storeMessage_open.
  destruct (statements_of_tables params now empty_database)
    as (_ & row & Hrow & Hmsgs).
  assert (Hsafe : safe_rows (exec_statements (statements_of params now) empty_database)).
  { unfold safe_rows. rewrite Hmsgs. constructor; [|constructor].
    unfold insertMsg_of in Hrow. injection Hrow as <-.
    split; [exact Hts|]. split; [apply safe_flag|exact Hnow]. }
  exists row. eexists. split.
  - rewrite queryMessages_run.
    rewrite (select_messages_safe _ _ _ Hsafe) by (intros n Hn; discriminate Hn).
    unfold conditions_of. cbn [Filter.empty Filter.from Filter.to
      Filter.conversationJid Filter.accountId Filter.limit truthy_string
      truthy_number app].
    rewrite where_clause_nil, Hmsgs.
    cbn [insert_or_replace_message empty_database messages filter app
         order_by_timestamp insert_by_timestamp map].
    rewrite (read_row_of_call params now row Hrow Hnul). reflexivity.
  - apply insertMsg_of_records, Hrow.
Qed.

(** ** Conversation rows come first *)

Lemma upsert_keeps_jids (e : ConversationMetadata) (rows : list ConversationMetadata) :
  forall c, In c rows ->
    exists c', In c' (upsert_conversation e rows) /\ Conv.jid c' = Conv.jid c.
Proof.
  induction rows as [|r rows IH]; intros c Hc; [destruct Hc|].
  cbn [upsert_conversation].
  destruct (String.eqb (Conv.jid r) (Conv.jid e)) eqn:E.
  - destruct Hc as [<-|Hc].
    + eexists. split; [left; reflexivity|reflexivity].
    + exists c. split; [right; exact Hc|reflexivity].
  - destruct Hc as [<-|Hc].
    + exists r. split; [left; reflexivity|reflexivity].
    + destruct (IH c Hc) as (c' & Hin & Hj). exists c'. split; [right; exact Hin|exact Hj].
Qed.

Lemma upsert_has_jid (e : ConversationMetadata) (rows : list ConversationMetadata) :
  exists c', In c' (upsert_conversation e rows) /\ Conv.jid c' = Conv.jid e.
Proof.
  induction rows as [|r rows IH]; cbn [upsert_conversation].
  - exists e. split; [left; reflexivity|reflexivity].
  - destruct (String.eqb (Conv.jid r) (Conv.jid e)) eqn:E.
    + apply String.eqb_eq in E. eexists. split; [left; reflexivity|exact E].
    + destruct IH as (c' & Hin & Hj). exists c'. split; [right; exact Hin|exact Hj].
Qed.

Lemma no_orphans_upsert (e : ConversationMetadata) (d : Database) :
  no_orphans d -> no_orphans (exec_statement (upsertConv e) d).
Proof.
  intros H m Hm. cbn in Hm |- *. destruct (H m Hm) as (c & Hc & Hj).
  destruct (upsert_keeps_jids e (conversations d) c Hc) as (c' & Hc' & Hj').
  exists c'. split; [exact Hc'|congruence].
Qed.

Lemma no_orphans_insert (row : StoredMessage) (d : Database) :
  (exists c, In c (conversations d) /\ Conv.jid c = conversation_jid row) ->
  no_orphans d -> no_orphans (exec_statement (insertMsg row) d).
Proof.
  intros Hrow H m Hm. cbn in Hm |- *. unfold insert_or_replace_message in Hm.
  apply in_app_or in Hm. destruct Hm as [Hm|[<-|[]]].
  - apply filter_In in Hm. apply H, Hm.
  - exact Hrow.
Qed.

Lemma no_orphans_participants (rows : list Part.t) (d : Database) :
  no_orphans d -> no_orphans (exec_statements (map insertParticipant rows) d).
Proof.
  intros H m. destruct (exec_participants_conversations rows d) as [-> ->]. apply H.
Qed.

Lemma prefix_of_participants (rows : list Part.t) (pre post : list Statement) :
  pre ++ post = map insertParticipant rows ->
  exists rows', pre = map insertParticipant rows'.
Proof.
  intros H. symmetry in H. apply map_eq_app in H.
  destruct H as (l1 & l2 & _ & H1 & _). exists l1. symmetry. exact H1.
Qed.

Lemma statements_prefix_no_orphans (params : Params.t WAMessage) (now : Z)
    (d : Database) (pre post : list Statement) :
  no_orphans d ->
  pre ++ post = statements_of params now ->
  no_orphans (exec_statements pre d).
Proof.
  intros Hd Heq. destruct (statements_of_tail params now) as [rows Hst].
  rewrite Hst in Heq.
  assert (Hconv : exists c,
             In c (conversations (exec_statements [upsertConv_of params now] d))
             /\ Conv.jid c = Params.conversationJid params).
  { cbn. apply (upsert_has_jid
      (Conv.mk (Params.conversationJid params) (Params.chatType params)
         (nullish (Params.displayName params)) (Params.timestamp params) now)). }
  assert (H1 : no_orphans (exec_statements [upsertConv_of params now] d)).
  { apply no_orphans_upsert, Hd. }
  assert (H2 : no_orphans
                 (exec_statements [upsertConv_of params now; insertMsg_of params now] d)).
  { change (no_orphans (exec_statement (insertMsg_of params now)
              (exec_statements [upsertConv_of params now] d))).
    apply no_orphans_insert; [exact Hconv|exact H1]. }
  destruct pre as [|a pre]; [exact Hd|]. injection Heq as -> Heq.
  destruct pre as [|b pre]; [exact H1|]. injection Heq as -> Heq.
  destruct (prefix_of_participants rows pre post Heq) as [rows' ->].
  change (no_orphans (exec_statements (map insertParticipant rows')
            (exec_statements [upsertConv_of params now; insertMsg_of params now] d))).
  apply no_orphans_participants, H2.
Qed.

Lemma statements_prefix_has_conversation (params : Params.t WAMessage) (now : Z)
    (d : Database) (pre post : list Statement) :
  pre ++ post = statements_of params now ->
  pre <> [] ->
  exists c, In c (conversations (exec_statements pre d))
            /\ Conv.jid c = Params.conversationJid params.
Proof.
  intros Heq Hne. destruct (statements_of_tail params now) as [rows Hst].
  rewrite Hst in Heq.
  destruct pre as [|a pre]; [contradiction|]. injection Heq as -> Heq.
  destruct pre as [|b pre].
  { cbn. apply (upsert_has_jid (conv_of params now)). }
  injection Heq as -> Heq.
  destruct (prefix_of_participants rows pre post Heq) as [rows' ->].
  change (exec_statements
            (upsertConv_of params now :: insertMsg_of params now
             :: map insertParticipant rows') d)
    with (exec_statements (map insertParticipant rows')
            (exec_statement (insertMsg_of params now)
               (exec_statement (upsertConv_of params now) d))).
  destruct (exec_participants_conversations rows'
              (exec_statement (insertMsg_of params now)
                 (exec_statement (upsertConv_of params now) d))) as [-> _].
  cbn. apply (upsert_has_jid (conv_of params now)).
Qed.

Lemma before_failure_prefix (fails : Statement -> bool) (sts : list Statement) :
  exists post, before_failure fails sts ++ post = sts.
Proof.
  induction sts as [|st sts [post IH]]; [exists []; reflexivity|].
  cbn [before_failure]. destruct (fails st).
  - exists (st :: sts). reflexivity.
  - exists post. cbn [app]. rewrite IH. reflexivity.
Qed.

Lemma for_of_run_or_fail {A} (fails : Statement -> bool) (e : JsError)
    (f : A -> Statement) (l : list A) (s : WhatsAppHistoryStore) :
  for_of l (fun x => run_or_fail fails e (f x)) s
  = (if existsb fails (map f l) then inl e else inr tt,
     mkStore (db_open s) (exec_statements (before_failure fails (map f l)) (file s))).
Proof.
  revert s. induction l as [|x l IH]; intros s.
  - destruct s; reflexivity.
  - cbn [for_of map existsb before_failure]. unfold bind at 1, run_or_fail at 1.
    destruct (fails (f x)); [destruct s; reflexivity|].
    cbn [run orb]. rewrite IH. reflexivity.
Qed.

(** A call on an engine that fails: the statements before the failure
    have run, in the order of the source. *)
Lemma storeMessage_failing_open (fails : Statement -> bool) (e : JsError)
    (params : Params.t WAMessage) (now : Z) (d : Database) :
  storeMessage_failing fails e params now (mkStore true d)
  = (if existsb fails (statements_of params now) then inl e else inr tt,
     mkStore true
       (exec_statements (before_failure fails (statements_of params now)) d)).
Proof.
  unfold storeMessage_failing, storeMessage_with, statements_of.
  unfold bind at 1. cbn [this db_open negb].
  unfold bind at 1, run_or_fail at 1. cbn [existsb before_failure].
  destruct (fails (upsertConv_of params now)); [reflexivity|].
  cbn [run db_open file orb].
  unfold bind at 1, run_or_fail at 1.
  destruct (fails (insertMsg_of params now)); [reflexivity|].
  cbn [run db_open file orb].
  destruct (Params.chatType params); [reflexivity|].
  destruct (Params.groupParticipants params) as [l|]; [|reflexivity].
  rewrite for_of_run_or_fail. reflexivity.
Qed.

(** C5: a [storeMessage] call runs the conversation upsert before the
    message write.  Wherever the engine fails during a call on an open
    store in which every message row has a conversation row, the store
    is left with a conversation row for every message row: a failure of
    the upsert leaves the database as it was; once the upsert has run the
    conversation of the call has a row, and a failure of the message
    write leaves the messages table as it was.  A call on an engine that
    does not fail returns and leaves a conversation row for every message
    row, the row of the call included. *)
Theorem conversation_upserted_before_message
    (params : Params.t WAMessage) (now : Z) (d : Database)
    (fails : Statement -> bool) (e : JsError) :
  no_orphans d ->
  exists outcome d',
    storeMessage_failing fails e params now (mkStore true d)
    = (outcome, mkStore true d')
    /\ no_orphans d'
    /\ (fails (upsertConv_of params now) = true -> outcome = inl e /\ d' = d)
    /\ (fails (upsertConv_of params now) = false ->
        (exists c, In c (conversations d')
                   /\ Conv.jid c = Params.conversationJid params)
        /\ (fails (insertMsg_of params now) = true ->
            outcome = inl e /\ messages d' = messages d))
    /\ exists d'' row,
         storeMessage params now (mkStore true d) = (inr tt, mkStore true d'')
         /\ no_orphans d''
         /\ insertMsg_of params now = insertMsg row
         /\ In row (messages d'')
         /\ exists c, In c (conversations d'') /\ Conv.jid c = conversation_jid row.
Proof.
  intros Hd. rewrite storeMessage_failing_open. eexists. eexists.
  split; [reflexivity|].
  destruct (before_failure_prefix fails (statements_of params now)) as [post Hpost].
  split; [exact (statements_prefix_no_orphans params now d _ post Hd Hpost)|].
  split; [|split].
  - intros Hf. unfold statements_of. cbn [existsb before_failure]. rewrite Hf.
    split; reflexivity.
  - intros Hf. split.
    + apply (statements_prefix_has_conversation params now d _ post Hpost).
      unfold statements_of. cbn [before_failure]. rewrite Hf. discriminate.
    + intros Hi. unfold statements_of. cbn [existsb before_failure].
      rewrite Hf, Hi. split; reflexivity.
  - rewrite storeMessage_open.
    destruct (statements_of_tables params now d) as (Hc & row & Hrow & Hm).
    exists (exec_statements (statements_of params now) d), row.
    split; [reflexivity|].
    assert (Hno : no_orphans (exec_statements (statements_of params now) d)).
    { apply (statements_prefix_no_orphans params now d _ [] Hd). apply app_nil_r. }
    assert (Hin : In row (messages (exec_statements (statements_of params now) d))).
    { rewrite Hm. unfold insert_or_replace_message. apply in_or_app. right.
      left. reflexivity. }
    split; [exact Hno|]. split; [exact Hrow|]. split; [exact Hin|].
    exact (Hno row Hin).
Qed.

(** ** Participants *)

Lemma exec_participants_table (rows : list Part.t) (d : Database) :
  participants (exec_statements (map insertParticipant rows) d)
  = insert_participants rows (participants d).
Proof.
  revert d. induction rows as [|r rows IH]; intros d; [reflexivity|].
  change (exec_statements (map insertParticipant (r :: rows)) d)
    with (exec_statements (map insertParticipant rows)
            (exec_statement (insertParticipant r) d)).
  rewrite IH. reflexivity.
Qed.

Lemma existsb_app_l {A} (f : A -> bool) (l1 l2 : list A) :
  existsb f l1 = true -> existsb f (l1 ++ l2) = true.
Proof. intros H. rewrite existsb_app, H. reflexivity. Qed.

Lemma insert_participants_spec (rows old : list Part.t) :
  exists added,
    insert_participants rows old = old ++ added
    /\ Forall (fun r =>
         In r rows
         /\ existsb (participant_key_eqb (Part.conversation_jid r) (Part.participant_jid r))
              old = false) added
    /\ forall r, In r rows ->
         existsb (participant_key_eqb (Part.conversation_jid r) (Part.participant_jid r))
           (old ++ added) = true.
Proof.
  revert old. induction rows as [|x rows IH]; intros old.
  - exists []. rewrite app_nil_r. split; [reflexivity|]. split; [constructor|].
    intros r [].
  - change (insert_participants (x :: rows) old)
      with (insert_participants rows (insert_or_ignore_participant x old)).
    unfold insert_or_ignore_participant.
    destruct (existsb (participant_key_eqb (Part.conversation_jid x)
                         (Part.participant_jid x)) old) eqn:E.
    + destruct (IH old) as (added & Heq & Hall & Hpres).
      exists added. split; [exact Heq|]. split.
      * eapply Forall_impl; [|exact Hall]. cbn. intros r [Hr Hn].
        split; [right; exact Hr|exact Hn].
      * intros r [<-|Hr]; [apply existsb_app_l, E|apply Hpres, Hr].
    + destruct (IH (old ++ [x])) as (added & Heq & Hall & Hpres).
      exists (x :: added). rewrite Heq, <- app_assoc. split; [reflexivity|]. split.
      * constructor; [split; [left; reflexivity|exact E]|].
        eapply Forall_impl; [|exact Hall]. cbn. intros r [Hr Hn].
        split; [right; exact Hr|].
        rewrite existsb_app in Hn. apply orb_false_iff in Hn. apply Hn.
      * intros r [<-|Hr].
        -- change (old ++ x :: added) with (old ++ [x] ++ added).
           rewrite app_assoc. apply existsb_app_l. rewrite existsb_app. cbn.
           unfold participant_key_eqb. rewrite !String.eqb_refl.
           apply orb_true_r.
        -- rewrite <- app_assoc in Hpres. apply Hpres, Hr.
Qed.

Lemma find_app_l {A} (f : A -> bool) (l1 l2 : list A) (r : A) :
  find f l1 = Some r -> find f (l1 ++ l2) = Some r.
Proof.
  induction l1 as [|x l1 IH]; [discriminate|]. cbn.
  destruct (f x); [auto|exact IH].
Qed.

(** C6: after a [storeMessage] call on an open store the participants
    table is the old table followed by the rows the call added, so the row
    recorded for a pair that was already present is the same row as
    before; nothing is added when the chat is direct or no list is given;
    for a group with a list, every listed participant has a row afterwards
    and every added row is a listed participant of this conversation,
    with null phone number and the call's clock reading, whose pair was
    not in the table before. *)
Theorem participants_first_write_wins
    (params : Params.t WAMessage) (now : Z) (d : Database) :
  exists d' added,
    storeMessage params now (mkStore true d) = (inr tt, mkStore true d')
    /\ participants d' = participants d ++ added
    /\ (forall cj pj r,
          find (participant_key_eqb cj pj) (participants d) = Some r ->
          find (participant_key_eqb cj pj) (participants d') = Some r)
    /\ (Params.chatType params = direct \/ Params.groupParticipants params = None ->
        added = [])
    /\ (forall l,
          Params.chatType params = group -> Params.groupParticipants params = Some l ->
          (forall pj, In pj l ->
             existsb (participant_key_eqb (Params.conversationJid params) pj)
               (participants d') = true)
          /\ Forall (fun r =>
               r = Part.mk (Params.conversationJid params) (Part.participant_jid r) None now
               /\ In (Part.participant_jid r) l
               /\ existsb (participant_key_eqb (Params.conversationJid params)
                             (Part.participant_jid r)) (participants d) = false)
             added).
Proof.
  rewrite storeMessage_open.
  set (mk := fun pj => Part.mk (Params.conversationJid params) pj None now).
  set (rows := match Params.chatType params, Params.groupParticipants params with
               | group, Some l => map mk l
               | _, _ => []
               end).
  assert (Hst : statements_of params now
                = upsertConv_of params now :: insertMsg_of params now
                  :: map insertParticipant rows).
  { unfold statements_of, rows. destruct (Params.chatType params); [reflexivity|].
    destruct (Params.groupParticipants params); [|reflexivity].
    rewrite map_map. reflexivity. }
  assert (Htab : participants (exec_statements (statements_of params now) d)
                 = insert_participants rows (participants d)).
  { rewrite Hst.
    change (exec_statements
              (upsertConv_of params now :: insertMsg_of params now
               :: map insertParticipant rows) d)
      with (exec_statements (map insertParticipant rows)
              (exec_statement (insertMsg_of params now)
                 (exec_statement (upsertConv_of params now) d))).
    rewrite exec_participants_table. reflexivity. }
  destruct (insert_participants_spec rows (participants d)) as (added & Heq & Hall & Hpres).
  exists (exec_statements (statements_of params now) d), added.
  split; [reflexivity|]. rewrite Htab, Heq.
  split; [reflexivity|]. split; [|split].
  - intros cj pj r Hr. apply find_app_l, Hr.
  - intros Hno. assert (Hrows : rows = []).
    { unfold rows. destruct Hno as [->| ->]; [reflexivity|].
      destruct (Params.chatType params); reflexivity. }
    rewrite Hrows in Hall. destruct added as [|a added]; [reflexivity|].
    inversion Hall as [|? ? [[] _] _].
  - intros l Hg Hl. assert (Hrows : rows = map mk l).
    { unfold rows. rewrite Hg, Hl. reflexivity. }
    rewrite Hrows in Hall, Hpres. split.
    + intros pj Hpj. apply (Hpres (mk pj)). apply in_map, Hpj.
    + eapply Forall_impl; [|exact Hall]. cbn. intros r [Hr Hn].
      apply in_map_iff in Hr. destruct Hr as (pj & <- & Hpj).
      cbn. split; [reflexivity|]. split; [exact Hpj|exact Hn].
Qed.

(** ** The conversation row *)

Lemma upsert_absent (e : ConversationMetadata) (rows : list ConversationMetadata) :
  find (jid_is (Conv.jid e)) rows = None ->
  upsert_conversation e rows = rows ++ [e].
Proof.
  induction rows as [|r rows IH]; [reflexivity|]. cbn [find upsert_conversation app].
  unfold jid_is at 1. destruct (String.eqb (Conv.jid r) (Conv.jid e)); [discriminate|].
  intros H. rewrite (IH H). reflexivity.
Qed.

Lemma filter_jid_none (j : string) (rows : list ConversationMetadata) :
  ~ In j (map Conv.jid rows) -> filter (jid_is j) rows = [].
Proof.
  induction rows as [|r rows IH]; [reflexivity|]. cbn [map In filter]. intros H.
  unfold jid_is at 1. destruct (String.eqb_spec (Conv.jid r) j) as [E|E].
  - exfalso. apply H. left. exact E.
  - apply IH. intros Hin. apply H. right. exact Hin.
Qed.

Lemma find_none_not_in (j : string) (rows : list ConversationMetadata) :
  find (jid_is j) rows = None -> ~ In j (map Conv.jid rows).
Proof.
  induction rows as [|r rows IH]; [intros _ []|]. cbn [find map In].
  unfold jid_is at 1. destruct (String.eqb_spec (Conv.jid r) j) as [E|E]; [discriminate|].
  intros H [Hj|Hin]; [contradiction|]. exact (IH H Hin).
Qed.

(** One upsert on a table with unique jids. *)
Lemma upsert_one_row (e : ConversationMetadata) (rows : list ConversationMetadata) :
  NoDup (map Conv.jid rows) ->
  exists row,
    filter (jid_is (Conv.jid e)) (upsert_conversation e rows) = [row]
    /\ find (jid_is (Conv.jid e)) (upsert_conversation e rows) = Some row
    /\ Conv.display_name row
       = COALESCE (Conv.display_name e)
           (match find (jid_is (Conv.jid e)) rows with
            | Some c => Conv.display_name c
            | None => None
            end)
    /\ Conv.last_message_at row = Conv.last_message_at e
    /\ NoDup (map Conv.jid (upsert_conversation e rows)).
Proof.
  induction rows as [|r rows IH]; intros Hnd.
  - exists e. cbn. unfold jid_is. rewrite String.eqb_refl.
    repeat split; try reflexivity.
    + destruct (Conv.display_name e); reflexivity.
    + constructor; [intros []|constructor].
  - cbn [map] in Hnd. apply NoDup_cons_iff in Hnd. destruct Hnd as [Hnotin Hnd].
    cbn [upsert_conversation find].
    change (String.eqb (Conv.jid r) (Conv.jid e)) with (jid_is (Conv.jid e) r).
    destruct (jid_is (Conv.jid e) r) eqn:Er.
    + assert (E : Conv.jid r = Conv.jid e) by (apply String.eqb_eq, Er).
      set (row := Conv.mk (Conv.jid r) (Conv.chat_type r)
                    (COALESCE (Conv.display_name e) (Conv.display_name r))
                    (Conv.last_message_at e) (Conv.created_at r)).
      assert (Hrow : jid_is (Conv.jid e) row = true) by exact Er.
      exists row. cbn [filter find]. rewrite Hrow.
      rewrite <- E at 1. rewrite (filter_jid_none _ _ Hnotin).
      repeat split; try reflexivity.
      cbn [map Conv.jid row]. constructor; assumption.
    + assert (E : Conv.jid r <> Conv.jid e) by (apply String.eqb_neq, Er).
      destruct (IH Hnd) as (row & Hf & Hfind & Hdn & Hlm & Hnd').
      exists row. cbn [filter find]. rewrite Er.
      repeat split; try assumption.
      cbn [map]. constructor; [|exact Hnd'].
      intros Hin. apply in_map_iff in Hin. destruct Hin as (c & Hc & Hin).
      destruct (find (jid_is (Conv.jid e)) rows) eqn:Efind.
      * (* the jids of the table are unchanged *)
        assert (Hsame : forall rs, (exists c1, find (jid_is (Conv.jid e)) rs = Some c1) ->
                  map Conv.jid (upsert_conversation e rs) = map Conv.jid rs).
        { induction rs as [|x rs IHrs]; [intros [? Hx]; discriminate|].
          intros [c1 Hx]. cbn [find upsert_conversation] in *. unfold jid_is at 1 in Hx.
          destruct (String.eqb (Conv.jid x) (Conv.jid e)); [reflexivity|].
          cbn [map]. f_equal. apply IHrs. exists c1. exact Hx. }
        apply Hnotin. rewrite <- (Hsame rows); [|exists c0; exact Efind].
        apply in_map_iff. exists c. split; assumption.
      * rewrite (upsert_absent _ _ Efind) in Hin. apply in_app_or in Hin.
        destruct Hin as [Hin|[<-|[]]].
        -- apply Hnotin. apply in_map_iff. exists c. split; assumption.
        -- apply E. symmetry. exact Hc.
Qed.

Lemma most_recent_non_null_snoc (l : list (option string)) (a prior : option string) :
  most_recent_non_null (l ++ [a]) prior = most_recent_non_null l (COALESCE a prior).
Proof.
  induction l as [|x l IH]; cbn.
  - destruct a; reflexivity.
  - destruct x; [reflexivity|exact IH].
Qed.

Lemma store_all_cons (c : Params.t WAMessage * Z) (calls : list (Params.t WAMessage * Z))
    (d : Database) :
  store_all (c :: calls) (mkStore true d)
  = store_all calls (mkStore true (exec_statements (statements_of (fst c) (snd c)) d)).
Proof.
  unfold store_all. cbn [for_of]. unfold bind at 1. rewrite storeMessage_open. reflexivity.
Qed.

Lemma conversations_after_call (params : Params.t WAMessage) (now : Z) (d : Database) :
  conversations (exec_statements (statements_of params now) d)
  = upsert_conversation (conv_of params now) (conversations d).
Proof. apply statements_of_tables. Qed.

(** C2: after a non-empty sequence of [storeMessage] calls for one
    conversation on an open store whose conversation jids are unique,
    there is exactly one conversation row for that jid; its display name
    is the most recent non-null displayName of the calls, or the name
    recorded before them when every call left it out, and its
    last_message_at is the timestamp of the last call, whatever the
    earlier timestamps were. *)
Theorem conversation_row_tracks_calls
    (j : string) (calls : list (Params.t WAMessage * Z))
    (lastc : Params.t WAMessage * Z) (d : Database) :
  unique_jids d ->
  Forall (fun c => Params.conversationJid (fst c) = j) (calls ++ [lastc]) ->
  exists d' row,
    store_all (calls ++ [lastc]) (mkStore true d) = (inr tt, mkStore true d')
    /\ filter (jid_is j) (conversations d') = [row]
    /\ Conv.display_name row
       = most_recent_non_null
           (rev (map (fun c => Params.displayName (fst c)) (calls ++ [lastc])))
           (display_name_of j d)
    /\ Conv.last_message_at row = Params.timestamp (fst lastc).
Proof.
  revert d. induction calls as [|c calls IH]; intros d Hu Hall.
  - cbn [app] in *. inversion Hall as [|? ? Hj _]; subst.
    rewrite store_all_cons. cbn [store_all for_of ret].
    destruct (upsert_one_row (conv_of (fst lastc) (snd lastc)) (conversations d) Hu)
      as (row & Hf & _ & Hdn & Hlm & _).
    exists (exec_statements (statements_of (fst lastc) (snd lastc)) d), row.
    rewrite conversations_after_call.
    split; [reflexivity|]. split; [exact Hf|]. split; [|exact Hlm].
    rewrite Hdn. cbn. unfold display_name_of, select_conversation.
    destruct (Params.displayName (fst lastc)); reflexivity.
  - cbn [app] in *. inversion Hall as [|? ? Hj Hall']; subst.
    rewrite store_all_cons.
    destruct (upsert_one_row (conv_of (fst c) (snd c)) (conversations d) Hu)
      as (row1 & _ & Hfind1 & Hdn1 & _ & Hnd1).
    rewrite <- conversations_after_call in Hfind1, Hnd1.
    destruct (IH (exec_statements (statements_of (fst c) (snd c)) d) Hnd1 Hall')
      as (d' & row & Hrun & Hf & Hdn & Hlm).
    exists d', row. split; [exact Hrun|]. split; [exact Hf|]. split; [|exact Hlm].
    rewrite Hdn. cbn [map rev]. rewrite most_recent_non_null_snoc. f_equal.
    unfold display_name_of, select_conversation.
    cbn [conv_of Conv.jid Conv.display_name] in Hfind1, Hdn1.
    rewrite Hfind1, Hdn1. reflexivity.
Qed.

(** ** The filtered query *)

Section Conjuncts.

Variable r : StoredMessage.

Lemma truthy_string_some (o : option string) (s : string) :
  truthy_string o = Some s <-> o = Some s /\ s <> "".
Proof.
  unfold truthy_string. destruct o as [x|]; [|split; [discriminate|intros [? _]; discriminate]].
  destruct (String.eqb_spec x "") as [E|E]; split.
  - discriminate.
  - intros [H Hne]. injection H as ->. contradiction.
  - intros H. injection H as ->. split; [reflexivity|exact E].
  - intros [H _]. exact H.
Qed.

Lemma truthy_string_none (o : option string) :
  truthy_string o = None <-> forall s, o = Some s -> s = "".
Proof.
  unfold truthy_string. destruct o as [x|]; [|split; [intros _ s; discriminate|reflexivity]].
  destruct (String.eqb_spec x "") as [E|E]; split.
  - intros _ s H. injection H as <-. exact E.
  - reflexivity.
  - discriminate.
  - intros H. exfalso. apply E, H. reflexivity.
Qed.

Lemma from_conjunct (o : option string) :
  forallb (fun c => eval_condition c r)
    (match truthy_string o with
     | Some s => [timestamp_ge (Date_getTime s)]
     | None => []
     end) = true
  <-> (forall d, o = Some d -> d <> "" ->
         exists ms, Date_getTime d = Some ms /\ ms <= timestamp r).
Proof.
  destruct (truthy_string o) as [s|] eqn:E.
  - apply truthy_string_some in E. destruct E as [-> Hne]. cbn.
    rewrite andb_true_r. split.
    + intros H d Hd _. injection Hd as <-.
      destruct (Date_getTime s) as [ms|]; [|discriminate].
      exists ms. split; [reflexivity|apply Z.leb_le, H].
    + intros H. destruct (H s eq_refl Hne) as (ms & -> & Hle). apply Z.leb_le, Hle.
  - split; [|reflexivity]. intros _ d Hd Hne.
    exfalso. apply Hne. exact (proj1 (truthy_string_none o) E d Hd).
Qed.

Lemma to_conjunct (o : option string) :
  forallb (fun c => eval_condition c r)
    (match truthy_string o with
     | Some s => [timestamp_le (Date_getTime s)]
     | None => []
     end) = true
  <-> (forall d, o = Some d -> d <> "" ->
         exists ms, Date_getTime d = Some ms /\ timestamp r <= ms).
Proof.
  destruct (truthy_string o) as [s|] eqn:E.
  - apply truthy_string_some in E. destruct E as [-> Hne]. cbn.
    rewrite andb_true_r. split.
    + intros H d Hd _. injection Hd as <-.
      destruct (Date_getTime s) as [ms|]; [|discriminate].
      exists ms. split; [reflexivity|apply Z.leb_le, H].
    + intros H. destruct (H s eq_refl Hne) as (ms & -> & Hle). apply Z.leb_le, Hle.
  - split; [|reflexivity]. intros _ d Hd Hne.
    exfalso. apply Hne. exact (proj1 (truthy_string_none o) E d Hd).
Qed.

Lemma exact_conjunct (o : option string) (mk : string -> Condition)
    (col : StoredMessage -> string) :
  (forall v, eval_condition (mk v) r = String.eqb (col r) v) ->
  forallb (fun c => eval_condition c r)
    (match truthy_string o with
     | Some s => [mk s]
     | None => []
     end) = true
  <-> (forall v, o = Some v -> v <> "" -> col r = v).
Proof.
  intros Hmk. destruct (truthy_string o) as [s|] eqn:E.
  - apply truthy_string_some in E. destruct E as [-> Hne]. cbn.
    rewrite andb_true_r, Hmk. split.
    + intros H v Hv _. injection Hv as <-. apply String.eqb_eq, H.
    + intros H. apply String.eqb_eq, (H s eq_refl Hne).
  - split; [|reflexivity]. intros _ v Hv Hne.
    exfalso. apply Hne. exact (proj1 (truthy_string_none o) E v Hv).
Qed.

Lemma where_clause_satisfies (filter : ExportFilter) :
  where_clause (conditions_of filter) r = true <-> satisfies filter r.
Proof.
  unfold where_clause, conditions_of, satisfies.
  rewrite !forallb_app, !andb_true_iff.
  rewrite from_conjunct, to_conjunct.
  rewrite (exact_conjunct (Filter.conversationJid filter) conversation_jid_eq
             conversation_jid (fun v => eq_refl)).
  rewrite (exact_conjunct (Filter.accountId filter) account_id_eq
             account_id (fun v => eq_refl)).
  reflexivity.
Qed.

End Conjuncts.

(** C3, amended: on an open store whose stored integers are safe
    integers, and for a filter whose limit, if any, is a 64-bit integer,
    let [all] be the message rows that satisfy every bound of the filter
    that is present and non-empty (timestamp >= from and timestamp <= to
    on the parsed dates, both inclusive, conversation_jid and account_id
    equal to the given strings), in ascending timestamp order.
    [queryMessages] returns, each read back from the table, the first
    [limit] rows of [all] when [limit] is positive, and the whole of
    [all] when [limit] is absent, zero or negative. *)
Theorem queryMessages_selects_sorts_limits (filter : ExportFilter) (d : Database) :
  safe_rows d -> limit_fits filter ->
  exists all,
    Permutation all (List.filter (where_clause (conditions_of filter)) (messages d))
    /\ (forall r, where_clause (conditions_of filter) r = true <-> satisfies filter r)
    /\ (forall r, In r all <-> In r (messages d) /\ satisfies filter r)
    /\ StronglySorted ascending all
    /\ queryMessages filter (mkStore true d)
       = (inr (map read_row
                 (match Filter.limit filter with
                  | Some n => if 0 <? n then firstn (Z.to_nat n) all else all
                  | None => all
                  end)), mkStore true d)
    /\ (forall n rows,
          Filter.limit filter = Some n -> 0 < n ->
          queryMessages filter (mkStore true d) = (inr rows, mkStore true d) ->
          rows = map read_row (firstn (Z.to_nat n) all)
          /\ Z.of_nat (List.length rows) <= n)
    /\ (forall rows,
          queryMessages filter (mkStore true d) = (inr rows, mkStore true d) ->
          StronglySorted ascending rows).
Proof.
  intros Hsafe Hfits.
  pose proof (queryMessages_open filter d Hsafe Hfits) as Hq.
  unfold selected_rows, matching_rows in Hq.
  set (all := order_by_timestamp
                (List.filter (where_clause (conditions_of filter)) (messages d))) in *.
  exists all. split; [apply order_by_timestamp_perm|].
  split; [intros r; apply where_clause_satisfies|].
  split; [|split; [apply order_by_timestamp_sorted|split; [exact Hq|split]]].
  - intros r. rewrite <- where_clause_satisfies, <- filter_In. split; intros H.
    + eapply Permutation_in; [apply order_by_timestamp_perm|exact H].
    + eapply Permutation_in; [apply Permutation_sym, order_by_timestamp_perm|exact H].
  - intros n rows Hl Hn Hrows. rewrite Hq, Hl in Hrows.
    destruct (Z.ltb_spec 0 n); [|lia]. injection Hrows as <-.
    split; [reflexivity|]. rewrite length_map.
    pose proof (firstn_le_length (Z.to_nat n) all). lia.
  - intros rows Hrows. rewrite (queryMessages_open filter d Hsafe Hfits) in Hrows.
    injection Hrows as <-. apply read_rows_sorted, selected_rows_sorted.
Qed.

(** ** Falsy filter values *)

Lemma limit_zero_fits (f t c a : option string) :
  limit_fits (Filter.mk f t c a (Some 0)).
Proof. intros n H. cbn in H. injection H as <-. lia. Qed.

(** C10: an empty [from] or [to] string gives the same query as an absent
    one, and [limit: 0] gives the same query as no limit.  On an open
    store whose stored integers are safe integers,
    [queryMessages({limit: 0})] returns every row of the messages table,
    read back, in ascending timestamp order, and a query with [limit: 0]
    and other filter fields returns every stored row that satisfies
    them. *)
Theorem queryMessages_falsy_values_are_absent :
  (forall t c a l s,
      queryMessages (Filter.mk (Some "") t c a l) s
      = queryMessages (Filter.mk None t c a l) s)
  /\ (forall f c a l s,
      queryMessages (Filter.mk f (Some "") c a l) s
      = queryMessages (Filter.mk f None c a l) s)
  /\ (forall f t c a s,
      queryMessages (Filter.mk f t c a (Some 0)) s
      = queryMessages (Filter.mk f t c a None) s)
  /\ (forall d,
      safe_rows d ->
      exists rows,
        queryMessages (Filter.mk None None None None (Some 0)) (mkStore true d)
        = (inr rows, mkStore true d)
        /\ Permutation rows (map read_row (messages d))
        /\ StronglySorted ascending rows
        /\ List.length rows = List.length (messages d))
  /\ (forall f t c a d r,
      safe_rows d ->
      In r (messages d) ->
      satisfies (Filter.mk f t c a (Some 0)) r ->
      exists rows,
        queryMessages (Filter.mk f t c a (Some 0)) (mkStore true d)
        = (inr rows, mkStore true d)
        /\ In (read_row r) rows).
Proof.
  split; [reflexivity|]. split; [reflexivity|]. split; [reflexivity|]. split.
  - intros d Hsafe.
    rewrite (queryMessages_open _ d Hsafe (limit_zero_fits None None None None)).
    eexists. split; [reflexivity|].
    unfold selected_rows, matching_rows, conditions_of.
    cbn [Filter.from Filter.to Filter.conversationJid Filter.accountId Filter.limit
         truthy_string app Z.ltb Z.compare].
    rewrite where_clause_nil. split; [|split].
    + apply Permutation_map, order_by_timestamp_perm.
    + apply read_rows_sorted, order_by_timestamp_sorted.
    + rewrite length_map. apply Permutation_length, order_by_timestamp_perm.
  - intros f t c a d r Hsafe Hin Hsat.
    rewrite (queryMessages_open _ d Hsafe (limit_zero_fits f t c a)).
    eexists. split; [reflexivity|]. apply in_map.
    unfold selected_rows, matching_rows. cbn [Filter.limit Z.ltb Z.compare].
    apply (Permutation_in r (Permutation_sym (order_by_timestamp_perm _))).
    apply filter_In. split; [exact Hin|]. apply where_clause_satisfies, Hsat.
Qed.

(** ** The grouped export *)

Lemma first_occurrences_In (l : list string) (j : string) :
  In j (first_occurrences l) <-> In j l.
Proof.
  induction l as [|x l IH]; [reflexivity|]. cbn [first_occurrences In].
  rewrite filter_In, IH. split.
  - intros [H|[H _]]; [left; exact H|right; exact H].
  - intros [H|H]; [left; exact H|].
    destruct (String.eqb_spec j x) as [->|Hne]; [left; reflexivity|].
    right. split; [exact H|reflexivity].
Qed.

Lemma first_occurrences_NoDup (l : list string) : NoDup (first_occurrences l).
Proof.
  induction l as [|x l IH]; cbn [first_occurrences]; [constructor|].
  constructor; [|apply NoDup_filter, IH].
  intros H. apply filter_In in H. destruct H as [_ H].
  rewrite String.eqb_refl in H. discriminate.
Qed.

Lemma first_occurrences_snoc (l : list string) (x : string) :
  first_occurrences (l ++ [x])
  = if existsb (String.eqb x) l then first_occurrences l else first_occurrences l ++ [x].
Proof.
  induction l as [|a l IH]; [reflexivity|].
  cbn [app first_occurrences existsb]. rewrite IH.
  destruct (String.eqb_spec x a) as [->|Hne]; cbn [orb].
  - destruct (existsb (String.eqb a) l); [reflexivity|].
    rewrite filter_app. cbn [filter]. rewrite String.eqb_refl. cbn [negb].
    rewrite app_nil_r. reflexivity.
  - destruct (existsb (String.eqb x) l); [reflexivity|].
    rewrite filter_app. cbn [filter].
    destruct (String.eqb_spec x a) as [E|_]; [contradiction|]. reflexivity.
Qed.

Section Grouping.

Variable d : Database.

Lemma map_get_entries (stream : list StoredMessage) (k : string) (ks : list string) :
  map_get k (map (entry d stream) ks)
  = if existsb (String.eqb k) ks then Some (group_of d stream k) else None.
Proof.
  induction ks as [|j ks IH]; [reflexivity|].
  unfold map_get in *. cbn [map find entry fst existsb].
  rewrite (String.eqb_sym k j).
  destruct (String.eqb_spec j k) as [->|_]; [reflexivity|]. exact IH.
Qed.

Lemma map_set_fresh (stream : list StoredMessage) (k : string)
    (v : ExportedConversation) (ks : list string) :
  existsb (String.eqb k) ks = false ->
  map_set k v (map (entry d stream) ks) = map (entry d stream) ks ++ [(k, v)].
Proof.
  induction ks as [|j ks IH]; [reflexivity|]. cbn [existsb map map_set entry app].
  rewrite (String.eqb_sym k j). intros H. apply orb_false_iff in H.
  destruct H as [-> H]. rewrite (IH H). reflexivity.
Qed.

Lemma group_of_snoc_other (stream : list StoredMessage) (x : StoredMessage) (j : string) :
  j <> conversation_jid x ->
  group_of d (stream ++ [x]) j = group_of d stream j.
Proof.
  intros Hne. unfold group_of. rewrite filter_app. cbn [filter]. unfold in_conversation at 2.
  destruct (String.eqb_spec (conversation_jid x) j) as [E|_]; [congruence|].
  rewrite app_nil_r. reflexivity.
Qed.

Lemma push_message_entries (stream : list StoredMessage) (x : StoredMessage)
    (ks : list string) :
  NoDup ks ->
  push_message (conversation_jid x) (exported_message x) (map (entry d stream) ks)
  = map (entry d (stream ++ [x])) ks.
Proof.
  induction ks as [|j ks IH]; intros Hnd; [reflexivity|].
  apply NoDup_cons_iff in Hnd. destruct Hnd as [Hnotin Hnd].
  cbn [map push_message entry].
  destruct (String.eqb_spec j (conversation_jid x)) as [->|Hne].
  - f_equal.
    + unfold entry, group_of. cbn [Exported.jid Exported.chatType Exported.displayName
        Exported.messages]. rewrite filter_app, map_app. cbn [filter].
      unfold in_conversation at 3. rewrite String.eqb_refl. reflexivity.
    + apply map_ext_in. intros j Hj. unfold entry. f_equal.
      symmetry. apply group_of_snoc_other. intros ->. contradiction.
  - change (entry d (stream ++ [x]) j) with (j, group_of d (stream ++ [x]) j).
    rewrite group_of_snoc_other by exact Hne. f_equal. apply IH, Hnd.
Qed.

Lemma existsb_eqb_In (x : string) (l : list string) :
  existsb (String.eqb x) l = true <-> In x l.
Proof.
  rewrite existsb_exists. split.
  - intros (y & Hy & E). apply String.eqb_eq in E. subst. exact Hy.
  - intros H. exists x. split; [exact H|apply String.eqb_refl].
Qed.

Lemma existsb_first_occurrences (x : string) (l : list string) :
  existsb (String.eqb x) (first_occurrences l) = existsb (String.eqb x) l.
Proof.
  apply eq_true_iff_eq. rewrite !existsb_eqb_In. apply first_occurrences_In.
Qed.

Lemma filter_absent (stream : list StoredMessage) (k : string) :
  existsb (String.eqb k) (map conversation_jid stream) = false ->
  filter (in_conversation k) stream = [].
Proof.
  induction stream as [|m stream IH]; [reflexivity|]. cbn [map existsb filter].
  intros H. apply orb_false_iff in H. destruct H as [H1 H2].
  unfold in_conversation at 1. rewrite String.eqb_sym, H1. apply IH, H2.
Qed.

(** The map after the loop has read [stream]. *)
Lemma export_loop (stream : list StoredMessage) :
  fold_left (export_step d) stream []
  = map (entry d stream) (first_occurrences (map conversation_jid stream)).
Proof.
  induction stream as [|x stream IH] using rev_ind; [reflexivity|].
  rewrite fold_left_app. cbn [fold_left]. rewrite IH.
  rewrite map_app. cbn [map]. rewrite first_occurrences_snoc.
  unfold export_step. cbv zeta. rewrite map_get_entries, existsb_first_occurrences.
  destruct (existsb (String.eqb (conversation_jid x)) (map conversation_jid stream)) eqn:E.
  - apply push_message_entries, first_occurrences_NoDup.
  - rewrite map_set_fresh by (rewrite existsb_first_occurrences; exact E).
    match goal with
    | |- context [ _ ++ [?p] ] =>
        assert (Hnew : p = entry d stream (conversation_jid x))
    end.
    { unfold entry, group_of. rewrite (filter_absent _ _ E). reflexivity. }
    rewrite Hnew.
    change (map (entry d stream) (first_occurrences (map conversation_jid stream))
            ++ [entry d stream (conversation_jid x)])
      with (map (entry d stream) (first_occurrences (map conversation_jid stream))
            ++ map (entry d stream) [conversation_jid x]).
    rewrite <- map_app. apply push_message_entries.
    rewrite <- (app_nil_r (map conversation_jid stream)) in E.
    pose proof (first_occurrences_snoc (map conversation_jid stream) (conversation_jid x)) as Hs.
    rewrite app_nil_r in E. rewrite E in Hs. rewrite <- Hs.
    apply first_occurrences_NoDup.
Qed.

End Grouping.

Lemma group_timestamps_sorted (j : string) (stream : list StoredMessage) :
  StronglySorted ascending stream ->
  StronglySorted Z.le
    (map Exported.timestamp (map exported_message (filter (in_conversation j) stream))).
Proof.
  induction stream as [|x stream IH]; intros Hs; [constructor|].
  inversion Hs as [|? ? Hs' Hall]; subst. cbn [filter].
  destruct (in_conversation j x); [|apply IH, Hs'].
  cbn [map exported_message Exported.timestamp]. constructor; [apply IH, Hs'|].
  apply Forall_forall. intros t Ht. rewrite map_map in Ht.
  apply in_map_iff in Ht. destruct Ht as (m & <- & Hm). apply filter_In in Hm.
  rewrite Forall_forall in Hall. apply (Hall m), Hm.
Qed.

(** An export that returns: the loop over the rows of the query. *)
Lemma exportMessages_open (filter : ExportFilter) (d : Database) :
  safe_rows d -> limit_fits filter ->
  exportMessages filter (mkStore true d)
  = (inr (map (group_of d (map read_row (selected_rows filter d)))
            (first_occurrences
               (map conversation_jid (map read_row (selected_rows filter d))))),
     mkStore true d).
Proof.
  intros Hsafe Hfits.
  unfold exportMessages. unfold bind at 1. cbn [this db_open negb].
  unfold bind at 1. rewrite (queryMessages_open filter d Hsafe Hfits).
  unfold ret, map_values. cbn [file]. rewrite export_loop, map_map. reflexivity.
Qed.

Lemma find_unique_jid (rows : list ConversationMetadata) (c : ConversationMetadata) :
  NoDup (map Conv.jid rows) -> In c rows -> find (jid_is (Conv.jid c)) rows = Some c.
Proof.
  induction rows as [|r rows IH]; intros Hnd Hin; [destruct Hin|].
  cbn [map] in Hnd. apply NoDup_cons_iff in Hnd. destruct Hnd as [Hr Hnd].
  cbn [find]. unfold jid_is at 1.
  destruct (String.eqb_spec (Conv.jid r) (Conv.jid c)) as [E|E].
  - destruct Hin as [->|Hin]; [reflexivity|].
    exfalso. apply Hr. rewrite E. apply in_map, Hin.
  - destruct Hin as [->|Hin]; [contradiction|]. apply IH; assumption.
Qed.

Lemma find_no_jid (rows : list ConversationMetadata) (j : string) :
  (forall c, In c rows -> Conv.jid c <> j) -> find (jid_is j) rows = None.
Proof.
  induction rows as [|r rows IH]; intros H; [reflexivity|].
  cbn [find]. unfold jid_is at 1.
  destruct (String.eqb_spec (Conv.jid r) j) as [E|_].
  - exfalso. exact (H r (or_introl eq_refl) E).
  - apply IH. intros c Hc. apply H. right. exact Hc.
Qed.

(** C4: on an open store with unique conversation jids and safe stored
    integers, and for a filter whose limit is a 64-bit integer,
    [exportMessages] returns one group per conversation_jid of the rows
    [queryMessages] returns for the same filter, in the order in which
    the jids first appear in those rows; the messages of a group are the
    exported rows of that conversation in the order of the query, hence
    in ascending timestamp order; the chat type and display name of a
    group are those of the row of the conversations table with its jid,
    as read back, or "direct" and null when the table has no such row. *)
Theorem exportMessages_groups_by_first_appearance (filter : ExportFilter) (d : Database) :
  unique_jids d -> safe_rows d -> limit_fits filter ->
  exists stream groups,
    queryMessages filter (mkStore true d) = (inr stream, mkStore true d)
    /\ exportMessages filter (mkStore true d) = (inr groups, mkStore true d)
    /\ StronglySorted ascending stream
    /\ map Exported.jid groups = first_occurrences (map conversation_jid stream)
    /\ forall g, In g groups ->
         Exported.messages g
         = map exported_message (List.filter (in_conversation (Exported.jid g)) stream)
         /\ StronglySorted Z.le (map Exported.timestamp (Exported.messages g))
         /\ (forall c, In c (conversations d) -> Conv.jid c = Exported.jid g ->
             Exported.chatType g = Conv.chat_type c
             /\ Exported.displayName g = option_map read_text (Conv.display_name c))
         /\ ((forall c, In c (conversations d) -> Conv.jid c <> Exported.jid g) ->
             Exported.chatType g = direct /\ Exported.displayName g = None).
Proof.
  intros Hu Hsafe Hfits.
  set (stream := map read_row (selected_rows filter d)).
  exists stream, (map (group_of d stream) (first_occurrences (map conversation_jid stream))).
  assert (Hs : StronglySorted ascending stream)
    by apply read_rows_sorted, selected_rows_sorted.
  split; [apply queryMessages_open; assumption|].
  split; [apply exportMessages_open; assumption|].
  split; [exact Hs|]. split.
  - rewrite map_map. cbn [group_of Exported.jid]. apply map_id.
  - intros g Hg. apply in_map_iff in Hg. destruct Hg as (j & <- & _).
    cbn [group_of Exported.jid Exported.messages Exported.chatType Exported.displayName].
    split; [reflexivity|]. split; [apply group_timestamps_sorted, Hs|].
    unfold get_conversation, select_conversation. split.
    + intros c Hc <-. rewrite (find_unique_jid (conversations d) c Hu Hc).
      split; reflexivity.
    + intros Hnone. rewrite (find_no_jid (conversations d) j Hnone).
      split; reflexivity.
Qed.

(** ** Reachable stores *)

Lemma storeMessage_file (params : Params.t WAMessage) (now : Z) (s : WhatsAppHistoryStore) :
  file (snd (storeMessage params now s)) = file s
  \/ file (snd (storeMessage params now s))
     = exec_statements (statements_of params now) (file s).
Proof.
  destruct s as [[|] d].
  - right. rewrite storeMessage_open. reflexivity.
  - left. reflexivity.
Qed.

Lemma statements_of_no_orphans (params : Params.t WAMessage) (now : Z) (d : Database) :
  no_orphans d -> no_orphans (exec_statements (statements_of params now) d).
Proof.
  intros Hd. destruct (statements_of_tail params now) as [rows ->].
  change (no_orphans (exec_statements (map insertParticipant rows)
            (exec_statement (insertMsg_of params now)
               (exec_statement (upsertConv_of params now) d)))).
  apply no_orphans_participants, no_orphans_insert; [|apply no_orphans_upsert, Hd].
  apply (upsert_has_jid (conv_of params now)).
Qed.

(** Every reachable store keeps conversation jids unique and has a
    conversation row for every message row. *)
Lemma reachable_invariants (s : WhatsAppHistoryStore) :
  reachable s -> unique_jids (file s) /\ no_orphans (file s).
Proof.
  induction 1 as [|s _ IH|s _ IH|s params now _ IH].
  - split; [constructor|intros m []].
  - unfold initialize, initialize_with. destruct (db_open s); exact IH.
  - unfold close. destruct (db_open s); exact IH.
  - destruct IH as [Hu Hn].
    destruct (storeMessage_file params now s) as [->| ->]; [split; assumption|].
    split.
    + unfold unique_jids. rewrite conversations_after_call.
      destruct (upsert_one_row (conv_of params now) (conversations (file s)) Hu)
        as (_ & _ & _ & _ & _ & Hnd). exact Hnd.
    + apply statements_of_no_orphans, Hn.
Qed.

(** ** Primary keys *)

Lemma message_key_eqb_spec (cj mid : string) (r : StoredMessage) :
  message_key_eqb cj mid r = true <-> message_key r = (cj, mid).
Proof.
  unfold message_key_eqb, message_key. rewrite andb_true_iff, !String.eqb_eq.
  split; [intros [-> ->]; reflexivity|intros H; injection H; auto].
Qed.

Lemma participant_key_eqb_spec (cj pj : string) (r : Part.t) :
  participant_key_eqb cj pj r = true <-> participant_key r = (cj, pj).
Proof.
  unfold participant_key_eqb, participant_key. rewrite andb_true_iff, !String.eqb_eq.
  split; [intros [-> ->]; reflexivity|intros H; injection H; auto].
Qed.

(** Dropping rows keeps keys unique. *)
Lemma NoDup_map_filter {Row Key} (key : Row -> Key) (keep : Row -> bool)
    (rows : list Row) (Hrows : NoDup (map key rows)) :
  NoDup (map key (filter keep rows)).
Proof.
  induction rows as [|row rows IH]; cbn [map filter] in *; [constructor|].
  apply NoDup_cons_iff in Hrows. destruct Hrows as [Hfresh Hrest].
  specialize (IH Hrest). destruct (keep row); [|exact IH].
  cbn [map]. constructor; [|exact IH].
  rewrite in_map_iff. intros (other & Hkey & Hin). apply Hfresh.
  apply filter_In in Hin. rewrite in_map_iff. exists other. tauto.
Qed.

Lemma NoDup_snoc {A} (l : list A) (x : A) :
  NoDup l -> ~ In x l -> NoDup (l ++ [x]).
Proof.
  induction l as [|y l IH]; intros Hl Hx; cbn [app].
  - constructor; [intros []|constructor].
  - apply NoDup_cons_iff in Hl. destruct Hl as [Hy Hl]. constructor.
    + intros Hin. apply in_app_or in Hin. destruct Hin as [Hin|[->|[]]];
        [contradiction|]. apply Hx. left. reflexivity.
    + apply IH; [exact Hl|]. intros Hin. apply Hx. right. exact Hin.
Qed.

Lemma insert_or_replace_unique (row : StoredMessage) (rows : list StoredMessage) :
  NoDup (map message_key rows) ->
  NoDup (map message_key (insert_or_replace_message row rows)).
Proof.
  intros H. unfold insert_or_replace_message. rewrite map_app. cbn [map].
  apply NoDup_snoc; [apply NoDup_map_filter, H|].
  intros Hin. apply in_map_iff in Hin. destruct Hin as (y & Hy & Hin).
  apply filter_In in Hin. destruct Hin as [_ Hneg].
  apply negb_true_iff in Hneg.
  assert (Ht : message_key_eqb (conversation_jid row) (message_id row) y = true)
    by (apply message_key_eqb_spec; exact Hy).
  congruence.
Qed.

Lemma existsb_participant_key (row : Part.t) (rows : list Part.t) :
  existsb (participant_key_eqb (Part.conversation_jid row) (Part.participant_jid row)) rows
  = false ->
  ~ In (participant_key row) (map participant_key rows).
Proof.
  intros H Hin. apply in_map_iff in Hin. destruct Hin as (y & Hy & Hin).
  assert (Ht : existsb (participant_key_eqb (Part.conversation_jid row)
                          (Part.participant_jid row)) rows = true).
  { apply existsb_exists. exists y. split; [exact Hin|].
    apply participant_key_eqb_spec. exact Hy. }
  congruence.
Qed.

Lemma insert_or_ignore_unique (row : Part.t) (rows : list Part.t) :
  NoDup (map participant_key rows) ->
  NoDup (map participant_key (insert_or_ignore_participant row rows)).
Proof.
  intros H. unfold insert_or_ignore_participant.
  destruct (existsb _ rows) eqn:E; [exact H|].
  rewrite map_app. cbn [map]. apply NoDup_snoc; [exact H|].
  apply existsb_participant_key, E.
Qed.

Lemma insert_participants_unique (rows old : list Part.t) :
  NoDup (map participant_key old) ->
  NoDup (map participant_key (insert_participants rows old)).
Proof.
  revert old. induction rows as [|r rows IH]; intros old H; [exact H|].
  change (insert_participants (r :: rows) old)
    with (insert_participants rows (insert_or_ignore_participant r old)).
  apply IH, insert_or_ignore_unique, H.
Qed.

(** The three tables after one call. *)
Lemma tables_after_call (params : Params.t WAMessage) (now : Z) (d : Database) :
  exists row rows,
    insertMsg_of params now = insertMsg row
    /\ conversations (exec_statements (statements_of params now) d)
       = upsert_conversation (conv_of params now) (conversations d)
    /\ messages (exec_statements (statements_of params now) d)
       = insert_or_replace_message row (messages d)
    /\ participants (exec_statements (statements_of params now) d)
       = insert_participants rows (participants d).
Proof.
  destruct (statements_of_tables params now d) as (Hc & row & Hrow & Hm).
  destruct (statements_of_tail params now) as [rows Hst].
  exists row, rows. split; [exact Hrow|]. split; [exact Hc|]. split; [exact Hm|].
  rewrite Hst.
  change (exec_statements
            (upsertConv_of params now :: insertMsg_of params now
             :: map insertParticipant rows) d)
    with (exec_statements (map insertParticipant rows)
            (exec_statement (insertMsg_of params now)
               (exec_statement (upsertConv_of params now) d))).
  rewrite exec_participants_table. reflexivity.
Qed.

Lemma statements_of_keep_keys (params : Params.t WAMessage) (now : Z) (d : Database) :
  unique_jids d -> unique_message_keys d -> unique_participant_keys d ->
  unique_jids (exec_statements (statements_of params now) d)
  /\ unique_message_keys (exec_statements (statements_of params now) d)
  /\ unique_participant_keys (exec_statements (statements_of params now) d).
Proof.
  intros Hj Hm Hp.
  destruct (tables_after_call params now d) as (row & rows & _ & Hc & Hms & Hps).
  unfold unique_jids, unique_message_keys, unique_participant_keys.
  rewrite Hc, Hms, Hps. split; [|split].
  - destruct (upsert_one_row (conv_of params now) (conversations d) Hj)
      as (_ & _ & _ & _ & _ & Hnd). exact Hnd.
  - apply insert_or_replace_unique, Hm.
  - apply insert_participants_unique, Hp.
Qed.

(** X2: a [storeMessage] call on an open store whose three tables have
    unique primary keys succeeds and leaves three tables with unique
    primary keys: one conversation row per jid, one message row per
    (conversation_jid, message_id), one participant row per
    (conversation_jid, participant_jid). *)
Theorem storeMessage_keeps_primary_keys
    (params : Params.t WAMessage) (now : Z) (d : Database) :
  unique_jids d -> unique_message_keys d -> unique_participant_keys d ->
  exists d',
    storeMessage params now (mkStore true d) = (inr tt, mkStore true d')
    /\ unique_jids d' /\ unique_message_keys d' /\ unique_participant_keys d'.
Proof.
  intros Hj Hm Hp. rewrite storeMessage_open. eexists. split; [reflexivity|].
  apply statements_of_keep_keys; assumption.
Qed.

(** X3: in every store a program can reach from a new store on a fresh
    file by [initialize], [close] and [storeMessage] calls, the three
    tables have unique primary keys and every message row has a
    conversation row. *)
Theorem reachable_store_is_consistent (s : WhatsAppHistoryStore) :
  reachable s ->
  unique_jids (file s) /\ unique_message_keys (file s)
  /\ unique_participant_keys (file s) /\ no_orphans (file s).
Proof.
  induction 1 as [|s _ IH|s _ IH|s params now _ IH].
  - repeat split; try constructor. intros m [].
  - unfold initialize, initialize_with. destruct (db_open s); exact IH.
  - unfold close. destruct (db_open s); exact IH.
  - destruct IH as (Hj & Hm & Hp & Hn).
    destruct (storeMessage_file params now s) as [->| ->];
      [repeat split; assumption|].
    destruct (statements_of_keep_keys params now (file s) Hj Hm Hp) as (Hj' & Hm' & Hp').
    repeat split; try assumption.
    apply (statements_of_no_orphans params now (file s) Hn).
Qed.

(** ** What one call changes *)

Lemma upsert_present (e c : ConversationMetadata) (rows : list ConversationMetadata) :
  find (jid_is (Conv.jid e)) rows = Some c ->
  find (jid_is (Conv.jid e)) (upsert_conversation e rows)
  = Some (Conv.mk (Conv.jid c) (Conv.chat_type c)
            (COALESCE (Conv.display_name e) (Conv.display_name c))
            (Conv.last_message_at e) (Conv.created_at c))
  /\ List.length (upsert_conversation e rows) = List.length rows.
Proof.
  induction rows as [|r rows IH]; [discriminate|].
  cbn [find upsert_conversation].
  change (String.eqb (Conv.jid r) (Conv.jid e)) with (jid_is (Conv.jid e) r).
  destruct (jid_is (Conv.jid e) r) eqn:Er.
  - intros H. injection H as <-. cbn [find].
    assert (Hrow : jid_is (Conv.jid e)
                     (Conv.mk (Conv.jid r) (Conv.chat_type r)
                        (COALESCE (Conv.display_name e) (Conv.display_name r))
                        (Conv.last_message_at e) (Conv.created_at r)) = true) by exact Er.
    rewrite Hrow. split; reflexivity.
  - intros H. cbn [find]. rewrite Er. destruct (IH H) as [Hf Hl].
    split; [exact Hf|]. cbn [List.length]. rewrite Hl. reflexivity.
Qed.

(** X4: a [storeMessage] call for a conversation that already has a row
    adds no conversation row and keeps that row's jid, chat_type and
    created_at, whatever chatType the call carries; it sets
    last_message_at to the call's timestamp and display_name to the call's
    displayName when that is non-null.  A call for a conversation without
    a row appends one row holding the call's values and clock reading. *)
Theorem storeMessage_keeps_chat_type_and_created_at
    (params : Params.t WAMessage) (now : Z) (d : Database) :
  exists d',
    storeMessage params now (mkStore true d) = (inr tt, mkStore true d')
    /\ match select_conversation (Params.conversationJid params) d with
       | Some c =>
           select_conversation (Params.conversationJid params) d'
           = Some (Conv.mk (Conv.jid c) (Conv.chat_type c)
                     (COALESCE (Params.displayName params) (Conv.display_name c))
                     (Params.timestamp params) (Conv.created_at c))
           /\ List.length (conversations d') = List.length (conversations d)
       | None =>
           conversations d'
           = conversations d
             ++ [Conv.mk (Params.conversationJid params) (Params.chatType params)
                   (Params.displayName params) (Params.timestamp params) now]
       end.
Proof.
  rewrite storeMessage_open.
  exists (exec_statements (statements_of params now) d). split; [reflexivity|].
  unfold select_conversation. rewrite !conversations_after_call.
  destruct (find (jid_is (Params.conversationJid params)) (conversations d)) as [c|] eqn:E.
  - apply (upsert_present (conv_of params now) c (conversations d) E).
  - apply (upsert_absent (conv_of params now) (conversations d) E).
Qed.

Lemma upsert_other (e : ConversationMetadata) (j : string)
    (rows : list ConversationMetadata) :
  j <> Conv.jid e ->
  filter (jid_is j) (upsert_conversation e rows) = filter (jid_is j) rows.
Proof.
  intros Hne. induction rows as [|r rows IH]; cbn [upsert_conversation filter].
  - unfold jid_is. destruct (String.eqb_spec (Conv.jid e) j) as [E|_]; [congruence|].
    reflexivity.
  - destruct (String.eqb_spec (Conv.jid r) (Conv.jid e)) as [E|_].
    + cbn [filter].
      assert (Hr : jid_is j r = false) by (apply String.eqb_neq; congruence).
      assert (Hr' : jid_is j
                (Conv.mk (Conv.jid r) (Conv.chat_type r)
                   (COALESCE (Conv.display_name e) (Conv.display_name r))
                   (Conv.last_message_at e) (Conv.created_at r)) = false) by exact Hr.
      rewrite Hr, Hr'. reflexivity.
    + cbn [filter]. rewrite IH. reflexivity.
Qed.

Lemma filter_negb_idempotent {A} (p : A -> bool) (l : list A) :
  filter (fun x => negb (p x)) (filter (fun x => negb (p x)) l)
  = filter (fun x => negb (p x)) l.
Proof.
  induction l as [|x l IH]; [reflexivity|]. cbn [filter].
  destruct (p x) eqn:E; cbn [negb]; [exact IH|]. cbn [filter]. rewrite E. cbn [negb].
  rewrite IH. reflexivity.
Qed.

(** X5: a [storeMessage] call leaves the conversation rows of every other
    jid and the message rows of every other key as they were, in the same
    order, and leaves no trace of an older message row with its own key:
    the rows with the call's key are exactly the one new row. *)
Theorem storeMessage_touches_only_its_rows
    (params : Params.t WAMessage) (now : Z) (d : Database) :
  exists d',
    storeMessage params now (mkStore true d) = (inr tt, mkStore true d')
    /\ (forall j, j <> Params.conversationJid params ->
        filter (jid_is j) (conversations d') = filter (jid_is j) (conversations d))
    /\ filter (fun m => negb (has_key_of params m)) (messages d')
       = filter (fun m => negb (has_key_of params m)) (messages d)
    /\ exists row,
         insertMsg_of params now = insertMsg row
         /\ messages d' = filter (fun m => negb (has_key_of params m)) (messages d) ++ [row].
Proof.
  rewrite storeMessage_open. eexists. split; [reflexivity|].
  destruct (tables_after_call params now d) as (row & rows & Hrow & Hc & Hm & _).
  pose proof (insertMsg_of_records params now row Hrow) as (Hmid & Hcj & _).
  assert (Hshape : messages (exec_statements (statements_of params now) d)
                   = filter (fun m => negb (has_key_of params m)) (messages d) ++ [row]).
  { rewrite Hm. unfold insert_or_replace_message, has_key_of.
    rewrite Hmid, Hcj. reflexivity. }
  split; [|split].
  - intros j Hj. rewrite Hc. apply upsert_other. exact Hj.
  - rewrite Hshape, filter_app, filter_negb_idempotent. cbn [filter].
    assert (Hk : has_key_of params row = true).
    { unfold has_key_of. apply message_key_eqb_spec. unfold message_key.
      rewrite Hmid, Hcj. reflexivity. }
    rewrite Hk. cbn [negb]. apply app_nil_r.
  - exists row. split; [exact Hrow|exact Hshape].
Qed.

Lemma filter_key_count (cj mid : string) (rows : list StoredMessage) :
  NoDup (map message_key rows) ->
  (List.length (filter (fun m => negb (message_key_eqb cj mid m)) rows)
   + (if existsb (message_key_eqb cj mid) rows then 1 else 0))%nat
  = List.length rows.
Proof.
  induction rows as [|x rows IH]; [reflexivity|]. cbn [map]. intros H.
  apply NoDup_cons_iff in H. destruct H as [Hx Hl]. specialize (IH Hl).
  cbn [filter existsb]. destruct (message_key_eqb cj mid x) eqn:E; cbn [negb orb].
  - assert (Hno : existsb (message_key_eqb cj mid) rows = false).
    { destruct (existsb (message_key_eqb cj mid) rows) eqn:Ex; [|reflexivity].
      exfalso. apply existsb_exists in Ex. destruct Ex as (y & Hy & Ey).
      apply Hx. apply message_key_eqb_spec in E, Ey. rewrite E, <- Ey.
      apply in_map, Hy. }
    rewrite Hno in IH. cbn [List.length]. lia.
  - cbn [List.length]. lia.
Qed.

Lemma upsert_length (e : ConversationMetadata) (rows : list ConversationMetadata) :
  List.length (upsert_conversation e rows)
  = (List.length rows + (if existsb (jid_is (Conv.jid e)) rows then 0 else 1))%nat.
Proof.
  induction rows as [|r rows IH]; [reflexivity|]. cbn [upsert_conversation existsb].
  change (String.eqb (Conv.jid r) (Conv.jid e)) with (jid_is (Conv.jid e) r).
  destruct (jid_is (Conv.jid e) r); cbn [orb List.length]; [lia|]. rewrite IH. lia.
Qed.

(** X6: on an open store whose message keys are unique and whose
    message timestamps are safe integers, and for a call whose timestamp
    is a safe integer, [getStats] after the [storeMessage] call reports
    one more message than before when no row had the call's key and the
    same number when one had, and one more conversation than before when
    no row had the call's jid and the same number when one had. *)
Theorem getStats_after_storeMessage
    (params : Params.t WAMessage) (now : Z) (d : Database) :
  unique_message_keys d ->
  safe_timestamps d ->
  safe_integer (Params.timestamp params) = true ->
  exists before after s',
    getStats (mkStore true d) = (inr before, mkStore true d)
    /\ (storeMessage params now ;; getStats) (mkStore true d) = (inr after, s')
    /\ Stats.totalMessages after
       = Stats.totalMessages before
         + (if existsb (has_key_of params) (messages d) then 0 else 1)
    /\ Stats.totalConversations after
       = Stats.totalConversations before
         + (if existsb (jid_is (Params.conversationJid params)) (conversations d)
            then 0 else 1).
Proof.
  intros Hu Hsafe Hts.
  destruct (tables_after_call params now d) as (row & rows & Hrow & Hc & Hm & _).
  pose proof (insertMsg_of_records params now row Hrow)
    as (Hmid & Hcj & _ & _ & _ & _ & Hrts & _).
  assert (Hsafe' : safe_timestamps (exec_statements (statements_of params now) d)).
  { unfold safe_timestamps. rewrite Hm. unfold insert_or_replace_message.
    apply Forall_app. split.
    - eapply Forall_subset; [|exact Hsafe]. intros x Hx. apply filter_In in Hx. apply Hx.
    - constructor; [|constructor]. rewrite Hrts. exact Hts. }
  eexists. eexists. eexists. split; [exact (getStats_safe d Hsafe)|].
  unfold bind at 1. rewrite storeMessage_open.
  split; [exact (getStats_safe _ Hsafe')|].
  cbn [Stats.totalMessages Stats.totalConversations].
  rewrite Hc, Hm. split.
  - unfold insert_or_replace_message. rewrite length_app. cbn [List.length].
    pose proof (filter_key_count (conversation_jid row) (message_id row) (messages d) Hu)
      as Hcount.
    unfold has_key_of. rewrite <- Hmid, <- Hcj.
    destruct (existsb (message_key_eqb (conversation_jid row) (message_id row))
                (messages d)); lia.
  - rewrite upsert_length. cbn [conv_of Conv.jid].
    destruct (existsb (jid_is (Params.conversationJid params)) (conversations d)); lia.
Qed.

(** ** The export loses and repeats nothing *)

Lemma filter_disjoint_perm {A} (p q : A -> bool) (l : list A) :
  (forall x, p x = true -> q x = false) ->
  Permutation (filter p l ++ filter q l) (filter (fun x => p x || q x) l).
Proof.
  intros Hd. induction l as [|x l IH]; [constructor|]. cbn [filter].
  destruct (p x) eqn:Ep; cbn [orb].
  - rewrite (Hd x Ep). cbn [app]. apply perm_skip, IH.
  - destruct (q x); [|exact IH].
    eapply Permutation_trans; [apply Permutation_sym, Permutation_middle|].
    apply perm_skip, IH.
Qed.

Lemma groups_cover (keys : list string) (l : list StoredMessage) :
  NoDup keys ->
  Permutation (flat_map (fun j => filter (in_conversation j) l) keys)
    (filter (fun m => existsb (String.eqb (conversation_jid m)) keys) l).
Proof.
  induction keys as [|k keys IH]; intros Hnd.
  - cbn [flat_map existsb]. induction l as [|x l IHl]; [constructor|exact IHl].
  - apply NoDup_cons_iff in Hnd. destruct Hnd as [Hk Hnd]. cbn [flat_map existsb].
    eapply Permutation_trans; [apply Permutation_app_head, IH, Hnd|].
    eapply Permutation_trans.
    + apply (filter_disjoint_perm (in_conversation k)
               (fun m => existsb (String.eqb (conversation_jid m)) keys)).
      intros m Hm. apply String.eqb_eq in Hm.
      destruct (existsb (String.eqb (conversation_jid m)) keys) eqn:E; [|reflexivity].
      exfalso. apply Hk. apply existsb_eqb_In in E. rewrite <- Hm. exact E.
    + erewrite filter_ext; [apply Permutation_refl|]. intros m. cbn beta.
      unfold in_conversation. rewrite (String.eqb_sym (conversation_jid m) k).
      reflexivity.
Qed.

Lemma filter_all {A} (p : A -> bool) (l : list A) :
  (forall x, In x l -> p x = true) -> filter p l = l.
Proof.
  induction l as [|x l IH]; intros H; [reflexivity|]. cbn [filter].
  rewrite (H x (or_introl eq_refl)). f_equal. apply IH. intros y Hy. apply H. right. exact Hy.
Qed.

Lemma groups_partition (l : list StoredMessage) :
  Permutation
    (flat_map (fun j => filter (in_conversation j) l)
       (first_occurrences (map conversation_jid l)))
    l.
Proof.
  eapply Permutation_trans; [apply groups_cover, first_occurrences_NoDup|].
  rewrite filter_all; [apply Permutation_refl|].
  intros m Hm. apply existsb_eqb_In, first_occurrences_In, in_map, Hm.
Qed.

(** X7: on an open store whose stored integers are safe integers, and
    for a filter whose limit is a 64-bit integer, the groups
    [exportMessages] returns partition the rows [queryMessages] returns
    for the same filter: the messages of all groups together are the
    exported rows of the query, each exactly once; no two groups have the
    same jid; no group is empty. *)
Theorem exportMessages_partitions_the_query (filter : ExportFilter) (d : Database) :
  safe_rows d -> limit_fits filter ->
  exists stream groups,
    queryMessages filter (mkStore true d) = (inr stream, mkStore true d)
    /\ exportMessages filter (mkStore true d) = (inr groups, mkStore true d)
    /\ Permutation (List.concat (map Exported.messages groups)) (map exported_message stream)
    /\ NoDup (map Exported.jid groups)
    /\ Forall (fun g => Exported.messages g <> []) groups.
Proof.
  intros Hsafe Hfits.
  set (stream := map read_row (selected_rows filter d)).
  exists stream, (map (group_of d stream) (first_occurrences (map conversation_jid stream))).
  split; [apply queryMessages_open; assumption|].
  split; [apply exportMessages_open; assumption|]. split; [|split].
  - rewrite map_map. cbn [group_of Exported.messages].
    rewrite <- flat_map_concat_map.
    assert (Hmap : forall ks,
      flat_map (fun j => map exported_message (List.filter (in_conversation j) stream)) ks
      = map exported_message
          (flat_map (fun j => List.filter (in_conversation j) stream) ks)).
    { induction ks as [|k ks IH]; [reflexivity|]. cbn [flat_map].
      rewrite map_app, IH. reflexivity. }
    rewrite Hmap. apply Permutation_map, groups_partition.
  - rewrite map_map. cbn [group_of Exported.jid]. rewrite map_id.
    apply first_occurrences_NoDup.
  - apply Forall_forall. intros g Hg. apply in_map_iff in Hg.
    destruct Hg as (j & <- & Hj). cbn [group_of Exported.messages].
    apply first_occurrences_In, in_map_iff in Hj. destruct Hj as (m & Hm & Hin).
    assert (Hf : In m (List.filter (in_conversation j) stream)).
    { apply filter_In. split; [exact Hin|]. unfold in_conversation.
      rewrite Hm. apply String.eqb_refl. }
    intros Hnil. apply map_eq_nil in Hnil. rewrite Hnil in Hf. destruct Hf.
Qed.

(** ** From ingestion to export *)

(** X8: for a call whose texts hold no NUL character and whose timestamp
    and clock reading are safe integers, on a fresh store, [initialize],
    one [storeMessage] and then [exportMessages()] return exactly one
    group, for the call's conversation, with the call's chat type and
    display name, holding exactly one message whose fields are the call's
    values: the from-me flag comes back as the boolean that went in, and
    the location comes back as the pair that went in or as null when none
    was given. *)
Theorem stored_once_exports_once (params : Params.t WAMessage) (now : Z) :
  nul_free_params params ->
  safe_integer (Params.timestamp params) = true ->
  safe_integer now = true ->
  exists s',
    (initialize ;; storeMessage params now ;; exportMessages Filter.empty)
      (mkStore false empty_database)
    = (inr [Exported.mk (Params.conversationJid params) (Params.chatType params)
              (Params.displayName params)
              [Exported.mkMessage (Params.messageId params) (Params.senderJid params)
                 (Params.senderE164 params) (Params.senderName params)
                 (Params.body params) (Params.timestamp params)
                 (Params.isFromMe params) (Params.replyToId params)
                 (Params.mediaPath params) (Params.mediaType params)
                 (option_map (fun l => Exported.mkLocation (Params.lat l) (Params.lon l))
                    (Params.location params))]],
       s').
Proof.
  intros Hnul Hts Hnow.
  unfold bind at 1. cbn [initialize initialize_with db_open file].
  unfold bind at 1. rewrite storeMessage_open.
  destruct (tables_after_call params now empty_database)
    as (row & rows & Hrow & Hc & Hm & _).
  pose proof (read_row_of_call params now row Hrow Hnul) as Hread.
  remember (exec_statements (statements_of params now) empty_database) as d' eqn:Hd'.
  clear Hd'.
  assert (Hsafe : safe_rows d').
  { unfold safe_rows. rewrite Hm. constructor; [|constructor].
    unfold insertMsg_of in Hrow. injection Hrow as <-.
    split; [exact Hts|]. split; [apply safe_flag|exact Hnow]. }
  assert (Hfits : limit_fits Filter.empty) by (intros n Hn; discriminate Hn).
  exists (mkStore true d').
  rewrite (exportMessages_open Filter.empty d' Hsafe Hfits).
  unfold selected_rows, matching_rows, conditions_of.
  cbn [Filter.empty Filter.from Filter.to Filter.conversationJid Filter.accountId
       Filter.limit truthy_string app].
  rewrite where_clause_nil, Hm.
  cbn [empty_database messages insert_or_replace_message filter app order_by_timestamp
       insert_by_timestamp map].
  rewrite Hread.
  unfold insertMsg_of in Hrow. injection Hrow as <-.
  cbn [conversation_jid first_occurrences map].
  unfold group_of, get_conversation, select_conversation. rewrite Hc.
  cbn [empty_database conversations upsert_conversation find conv_of].
  unfold jid_is, in_conversation. cbn [Conv.jid filter conversation_jid].
  rewrite !String.eqb_refl.
  cbn [option_map fst snd map Conv.chat_type Conv.display_name].
  destruct Hnul as (_ & _ & _ & _ & _ & _ & _ & _ & _ & _ & _ & Hdn).
  cbn [conv_of Conv.chat_type Conv.display_name].
  rewrite (read_text_option_nul_free _ Hdn).
  unfold exported_message, nullish. cbn.
  assert (Hb : Boolean (if Params.isFromMe params then 1 else 0) = Params.isFromMe params)
    by (destruct (Params.isFromMe params); reflexivity).
  rewrite Hb. destruct (Params.location params) as [[la lo]|]; reflexivity.
Qed.

(** ** Order of the query *)

Lemma filter_perm {A} (p : A -> bool) (l1 l2 : list A) :
  Permutation l1 l2 -> Permutation (filter p l1) (filter p l2).
Proof.
  induction 1 as [|x l1 l2 _ IH|x y l|l1 l2 l3 _ IH1 _ IH2]; cbn [filter].
  - constructor.
  - destruct (p x); [apply perm_skip, IH|exact IH].
  - destruct (p x), (p y); try apply Permutation_refl. apply perm_swap.
  - eapply Permutation_trans; eassumption.
Qed.

Lemma sorted_perm_equal (l1 l2 : list StoredMessage) :
  StronglySorted ascending l1 -> StronglySorted ascending l2 ->
  Permutation l1 l2 -> NoDup (map timestamp l1) -> l1 = l2.
Proof.
  revert l2. induction l1 as [|x l1 IH]; intros l2 H1 H2 Hp Hnd.
  - apply Permutation_nil in Hp. subst. reflexivity.
  - destruct l2 as [|y l2].
    { apply Permutation_sym, Permutation_nil in Hp. discriminate. }
    inversion H1 as [|? ? H1' Hx]; subst. inversion H2 as [|? ? H2' Hy]; subst.
    cbn [map] in Hnd. apply NoDup_cons_iff in Hnd. destruct Hnd as [Hnotin Hnd].
    rewrite Forall_forall in Hx, Hy.
    assert (Exy : x = y).
    { assert (Hxin : In x (y :: l2))
        by (eapply Permutation_in; [exact Hp|left; reflexivity]).
      assert (Hyin : In y (x :: l1))
        by (eapply Permutation_in; [apply Permutation_sym, Hp|left; reflexivity]).
      destruct Hyin as [E|Hyin]; [exact E|].
      destruct Hxin as [E|Hxin]; [symmetry; exact E|].
      exfalso. apply Hnotin.
      pose proof (Hx y Hyin) as Hle1. pose proof (Hy x Hxin) as Hle2.
      unfold ascending in Hle1, Hle2.
      assert (Et : timestamp x = timestamp y) by lia.
      rewrite Et. apply in_map, Hyin. }
    subst y. f_equal. apply IH; try assumption.
    eapply Permutation_cons_inv, Hp.
Qed.

(** X14: when the message timestamps are all different, the rows
    [queryMessages] returns do not depend on the order in which the
    messages were stored: two databases holding the same message rows in
    different storage order give the same answer to every filter. *)
Theorem queryMessages_ignores_storage_order
    (filter : ExportFilter) (d1 d2 : Database) :
  Permutation (messages d1) (messages d2) ->
  NoDup (map timestamp (messages d1)) ->
  fst (queryMessages filter (mkStore true d1))
  = fst (queryMessages filter (mkStore true d2)).
Proof.
  intros Hp Hnd. rewrite !queryMessages_run. cbn [fst].
  unfold select_messages.
  assert (Hsame : order_by_timestamp
                    (List.filter (where_clause (conditions_of filter)) (messages d1))
                  = order_by_timestamp
                      (List.filter (where_clause (conditions_of filter)) (messages d2))).
  { apply sorted_perm_equal; try apply order_by_timestamp_sorted.
    - eapply Permutation_trans; [apply order_by_timestamp_perm|].
      eapply Permutation_trans; [apply filter_perm, Hp|].
      apply Permutation_sym, order_by_timestamp_perm.
    - eapply Permutation_NoDup.
      + apply Permutation_map, Permutation_sym, order_by_timestamp_perm.
      + apply NoDup_map_filter, Hnd. }
  rewrite Hsame. reflexivity.
Qed.

(** ** Shapes of the rows of a reachable store *)

Lemma participants_after_call (params : Params.t WAMessage) (now : Z) (d : Database) :
  participants (exec_statements (statements_of params now) d)
  = insert_participants (participant_rows params now) (participants d).
Proof.
  assert (Hst : statements_of params now
                = upsertConv_of params now :: insertMsg_of params now
                  :: map insertParticipant (participant_rows params now)).
  { unfold statements_of, participant_rows.
    destruct (Params.chatType params); [reflexivity|].
    destruct (Params.groupParticipants params); [|reflexivity].
    rewrite map_map. reflexivity. }
  rewrite Hst.
  change (exec_statements
            (upsertConv_of params now :: insertMsg_of params now
             :: map insertParticipant (participant_rows params now)) d)
    with (exec_statements (map insertParticipant (participant_rows params now))
            (exec_statement (insertMsg_of params now)
               (exec_statement (upsertConv_of params now) d))).
  rewrite exec_participants_table. reflexivity.
Qed.

Lemma participant_rows_shape (params : Params.t WAMessage) (now : Z) (r : Part.t) :
  In r (participant_rows params now) ->
  Part.participant_e164 r = None
  /\ Part.conversation_jid r = Params.conversationJid params.
Proof.
  unfold participant_rows.
  destruct (Params.chatType params); [intros []|].
  destruct (Params.groupParticipants params) as [l|]; [|intros []].
  intros H. apply in_map_iff in H. destruct H as (pj & <- & _). split; reflexivity.
Qed.

Lemma statements_of_shapes (params : Params.t WAMessage) (now : Z) (d : Database) :
  Forall message_shape (messages d) ->
  Forall (participant_shape d) (participants d) ->
  Forall message_shape (messages (exec_statements (statements_of params now) d))
  /\ Forall (participant_shape (exec_statements (statements_of params now) d))
       (participants (exec_statements (statements_of params now) d)).
Proof.
  intros Hm Hp.
  destruct (tables_after_call params now d) as (row & rows & Hrow & Hc & Hms & _).
  split.
  - rewrite Hms. unfold insert_or_replace_message. apply Forall_app. split.
    + apply Forall_forall. intros m Hin. apply filter_In in Hin.
      rewrite Forall_forall in Hm. apply Hm, Hin.
    + constructor; [|constructor].
      unfold insertMsg_of in Hrow. injection Hrow as <-.
      unfold message_shape. cbn. split.
      * destruct (Params.isFromMe params); auto.
      * destruct (Params.location params); cbn; split; intros H; try discriminate H;
          reflexivity.
  - rewrite participants_after_call.
    destruct (insert_participants_spec (participant_rows params now) (participants d))
      as (added & -> & Hadded & _).
    apply Forall_app. split.
    + eapply Forall_impl; [|exact Hp]. intros p (He & c & Hcin & Hj).
      split; [exact He|]. rewrite Hc.
      destruct (upsert_keeps_jids (conv_of params now) (conversations d) c Hcin)
        as (c' & Hc' & Hj').
      exists c'. split; [exact Hc'|congruence].
    + eapply Forall_impl; [|exact Hadded]. cbn beta. intros p [Hin _].
      destruct (participant_rows_shape params now p Hin) as [He Hcj].
      split; [exact He|]. rewrite Hc, Hcj.
      apply (upsert_has_jid (conv_of params now)).
Qed.

(** X15: in every reachable store each message row holds a from-me flag
    of 0 or 1 and either both coordinates or neither, so the export
    never loses half a location; each participant row holds a null phone
    number and belongs to a conversation that has a row. *)
Theorem reachable_rows_are_well_shaped (s : WhatsAppHistoryStore) :
  reachable s ->
  Forall message_shape (messages (file s))
  /\ Forall (participant_shape (file s)) (participants (file s))
  /\ Forall (fun m =>
        Exported.location (exported_message m) = None <-> location_lat m = None)
       (messages (file s)).
Proof.
  intros H.
  assert (Hshape : Forall message_shape (messages (file s))
                   /\ Forall (participant_shape (file s)) (participants (file s))).
  { induction H as [|s _ IH|s _ IH|s params now _ IH].
    - split; constructor.
    - unfold initialize, initialize_with. destruct (db_open s); exact IH.
    - unfold close. destruct (db_open s); exact IH.
    - destruct IH as [Hm Hp].
      destruct (storeMessage_file params now s) as [->| ->]; [split; assumption|].
      apply statements_of_shapes; assumption. }
  destruct Hshape as [Hm Hp]. split; [exact Hm|]. split; [exact Hp|].
  eapply Forall_impl; [|exact Hm]. intros m [_ Hboth].
  unfold exported_message. cbn [Exported.location].
  destruct (location_lat m), (location_lon m); split; intros; try congruence;
    try reflexivity.
  - destruct Hboth as [_ Hb]. specialize (Hb eq_refl). discriminate.
Qed.




(** ** The limit in the grouped export *)

Lemma group_messages_length (d : Database) (stream : list StoredMessage) :
  List.length
    (List.concat
       (map Exported.messages
          (map (group_of d stream) (first_occurrences (map conversation_jid stream)))))
  = List.length stream.
Proof.
  rewrite map_map. cbn [group_of Exported.messages].
  rewrite <- flat_map_concat_map.
  rewrite <- (length_map exported_message stream).
  apply Permutation_length.
  eapply Permutation_trans; [|apply Permutation_map, (groups_partition stream)].
  clear. induction (first_occurrences (map conversation_jid stream)) as [|k ks IH].
  - constructor.
  - cbn [flat_map]. rewrite map_app. apply Permutation_app_head, IH.
Qed.

(** X17: on an open store whose stored integers are safe integers, a
    positive limit below 2^63 bounds, in [exportMessages], the number of
    messages and not the number of conversations: the groups returned
    hold at most [limit] messages in total. *)
Theorem exportMessages_limit_counts_messages
    (filter : ExportFilter) (d : Database) (n : Z) :
  safe_rows d ->
  Filter.limit filter = Some n -> 0 < n < 2 ^ 63 ->
  exists groups,
    exportMessages filter (mkStore true d) = (inr groups, mkStore true d)
    /\ Z.of_nat (List.length (List.concat (map Exported.messages groups))) <= n.
Proof.
  intros Hsafe Hl Hn.
  assert (Hfits : limit_fits filter).
  { intros m Hm. rewrite Hl in Hm. injection Hm as <-. lia. }
  eexists. split; [apply exportMessages_open; assumption|].
  rewrite group_messages_length, length_map. unfold selected_rows. rewrite Hl.
  destruct (Z.ltb_spec 0 n); [|lia].
  pose proof (firstn_le_length (Z.to_nat n) (matching_rows filter d)). lia.
Qed.

(** ** CSV escaping *)

Lemma append_nil_r (s : string) : String.append s EmptyString = s.
Proof. induction s as [|c s IH]; [reflexivity|]. cbn. rewrite IH. reflexivity. Qed.

Lemma append_assoc (a b c : string) :
  String.append (String.append a b) c = String.append a (String.append b c).
Proof. induction a as [|x a IH]; [reflexivity|]. cbn. rewrite IH. reflexivity. Qed.

Lemma snoc_append (cur : string) (c : ascii) (v : string) :
  String.append (snoc cur c) v = String.append cur (String c v).
Proof. unfold snoc. rewrite append_assoc. reflexivity. Qed.

Lemma append_last_injective (a b : string) (c : ascii) :
  String.append a (String c EmptyString) = String.append b (String c EmptyString) -> a = b.
Proof.
  revert b. induction a as [|x a IH]; intros [|y b] H; cbn in H.
  - reflexivity.
  - injection H as _ H. destruct b; discriminate.
  - injection H as _ H. destruct a; discriminate.
  - injection H as -> H. f_equal. apply IH, H.
Qed.

Lemma double_quotes_injective (a b : string) :
  double_quotes a = double_quotes b -> a = b.
Proof.
  revert b. induction a as [|x a IH]; intros [|y b] H; cbn [double_quotes] in H.
  - reflexivity.
  - destruct (Ascii.eqb y quote); discriminate.
  - destruct (Ascii.eqb x quote); discriminate.
  - destruct (Ascii.eqb_spec x quote) as [->|Hx], (Ascii.eqb_spec y quote) as [->|Hy].
    + injection H as H. f_equal. apply IH, H.
    + injection H as Hq _. congruence.
    + injection H as Hq _. congruence.
    + injection H as -> H. f_equal. apply IH, H.
Qed.

Lemma csvEscape_plain (v : string) :
  includes quote v || includes comma v || includes newline v = false ->
  csvEscape v = v /\ includes quote v = false /\ includes comma v = false.
Proof.
  intros H. unfold csvEscape. rewrite H.
  apply orb_false_iff in H. destruct H as [H _].
  apply orb_false_iff in H. destruct H as [Hq Hc]. auto.
Qed.

(** X9: [csvEscape] never maps two different values to the same text. *)
Theorem csvEscape_injective (a b : string) :
  csvEscape a = csvEscape b -> a = b.
Proof.
  unfold csvEscape.
  destruct (includes quote a || includes comma a || includes newline a) eqn:Ea,
           (includes quote b || includes comma b || includes newline b) eqn:Eb; intros H.
  - injection H as H. apply append_last_injective in H.
    apply double_quotes_injective, H.
  - destruct (csvEscape_plain b Eb) as (_ & Hq & _).
    rewrite <- H in Hq. cbn in Hq. discriminate.
  - destruct (csvEscape_plain a Ea) as (_ & Hq & _).
    rewrite H in Hq. cbn in Hq. discriminate.
  - exact H.
Qed.

(** ** Reading a row back *)

Lemma read_unquoted (v cur : string) :
  includes comma v = false ->
  csv_read Unquoted cur v = [String.append cur v]
  /\ forall more,
       csv_read Unquoted cur (String.append v (String comma more))
       = String.append cur v :: csv_read FieldStart EmptyString more.
Proof.
  revert cur. induction v as [|x v IH]; intros cur H.
  - cbn. rewrite append_nil_r. split; [reflexivity|]. intros more. reflexivity.
  - cbn [includes] in H. apply orb_false_iff in H. destruct H as [Hx Hv].
    cbn [csv_read String.append]. rewrite Hx.
    destruct (IH (snoc cur x) Hv) as [H1 H2]. rewrite snoc_append in H1, H2.
    split; [exact H1|]. intros more. rewrite H2. reflexivity.
Qed.

Lemma read_quoted (v cur : string) :
  csv_read Quoted cur (String.append (double_quotes v) (String quote EmptyString))
  = [String.append cur v]
  /\ forall more,
       csv_read Quoted cur
         (String.append (double_quotes v) (String quote (String comma more)))
       = String.append cur v :: csv_read FieldStart EmptyString more.
Proof.
  revert cur. induction v as [|x v IH]; intros cur.
  - cbn. rewrite append_nil_r. split; [reflexivity|]. intros more. reflexivity.
  - cbn [double_quotes]. destruct (Ascii.eqb_spec x quote) as [->|Hx].
    + cbn [String.append csv_read]. rewrite Ascii.eqb_refl.
      destruct (IH (snoc cur quote)) as [H1 H2]. rewrite snoc_append in H1, H2.
      split; [exact H1|]. intros more. rewrite H2. reflexivity.
    + cbn [String.append csv_read].
      destruct (Ascii.eqb_spec x quote) as [E|_]; [contradiction|].
      destruct (IH (snoc cur x)) as [H1 H2]. rewrite snoc_append in H1, H2.
      split; [exact H1|]. intros more. rewrite H2. reflexivity.
Qed.

Lemma read_field (v : string) :
  csv_read FieldStart EmptyString (csvEscape v) = [v]
  /\ forall more,
       csv_read FieldStart EmptyString (String.append (csvEscape v) (String comma more))
       = v :: csv_read FieldStart EmptyString more.
Proof.
  destruct (includes quote v || includes comma v || includes newline v) eqn:E.
  - unfold csvEscape. rewrite E. cbn [csv_read String.append]. rewrite Ascii.eqb_refl.
    destruct (read_quoted v EmptyString) as [H1 H2]. split; [exact H1|].
    intros more. rewrite append_assoc. cbn [String.append]. apply H2.
  - destruct (csvEscape_plain v E) as (-> & Hq & Hc).
    destruct v as [|x v]; [split; reflexivity|].
    cbn [includes] in Hq, Hc.
    apply orb_false_iff in Hq, Hc. destruct Hq as [Hxq _], Hc as [Hxc Hvc].
    cbn [csv_read String.append]. rewrite Hxq, Hxc.
    destruct (read_unquoted v (String x EmptyString) Hvc) as [H1 H2].
    split; [exact H1|exact H2].
Qed.

Lemma read_record (texts : list string) :
  texts <> [] ->
  csv_fields (String.concat "," (map csvEscape texts)) = texts.
Proof.
  induction texts as [|v texts IH]; [contradiction|]. intros _.
  destruct texts as [|v' texts].
  - cbn [map String.concat]. apply read_field.
  - change (String.concat "," (map csvEscape (v :: v' :: texts)))
      with (String.append (csvEscape v)
              (String comma (String.concat "," (map csvEscape (v' :: texts))))).
    unfold csv_fields in *. destruct (read_field v) as [_ H]. rewrite H.
    f_equal. apply IH. discriminate.
Qed.

Lemma toCsvRow_texts (values : list CsvValue) :
  toCsvRow values = String.concat "," (map csvEscape (map cell_text values)).
Proof.
  unfold toCsvRow. rewrite map_map. f_equal. apply map_ext.
  intros [s|n|]; reflexivity.
Qed.

Lemma csv_fields_toCsvRow (values : list CsvValue) :
  values <> [] -> csv_fields (toCsvRow values) = map cell_text values.
Proof.
  intros H. rewrite toCsvRow_texts. apply read_record.
  destruct values; [contradiction|discriminate].
Qed.

(** X10: a record written by [toCsvRow] for a non-empty array is read
    back, by the usual reading of a CSV record, as the texts of its cells
    in order (the empty text for null and undefined), whatever quotes,
    commas and newlines the texts contain; so every message record has
    the fourteen fields of the header record. *)
Theorem toCsvRow_reads_back (values : list CsvValue) :
  values <> [] ->
  csv_fields (toCsvRow values) = map cell_text values
  /\ List.length (csv_fields (toCsvRow values)) = List.length values
  /\ forall msg,
       List.length (csv_fields (toCsvRow (row_values msg)))
       = List.length (csv_fields (toCsvRow headers)).
Proof.
  intros H. rewrite (csv_fields_toCsvRow values H). split; [reflexivity|].
  split; [apply length_map|]. intros msg.
  rewrite !csv_fields_toCsvRow by discriminate. rewrite !length_map. reflexivity.
Qed.


(** ** The checks of the command *)

Lemma validate_options_state (opts : Options.t) (s : WhatsAppHistoryStore) :
  snd (validate_options opts s) = s.
Proof.
  unfold validate_options. cbv zeta. unfold bind, ret, throw.
  destruct (match option_map toLowerCase (Options.format opts) with
            | Some f => existsb (String.eqb f) ["json"; "csv"; "jsonl"]
            | None => false
            end); [|reflexivity].
  destruct (truthy_string (Options.from opts)) as [d|];
    [destruct (validateIsoDate d); [|reflexivity]|];
    (destruct (truthy_string (Options.to opts)) as [d'|];
     [destruct (validateIsoDate d'); [|reflexivity]|];
     (destruct (Options.limit opts) as [[|z]|]; [reflexivity| |reflexivity];
      destruct (z <=? 0); reflexivity)).
Qed.

Lemma validate_options_spec (opts : Options.t) (s : WhatsAppHistoryStore) :
  (exists r, validate_options opts s = (inr r, s)) <-> options_valid opts.
Proof.
  unfold validate_options, options_valid, format_accepted. cbv zeta.
  unfold bind, ret, throw.
  destruct (match option_map toLowerCase (Options.format opts) with
            | Some f => existsb (String.eqb f) ["json"; "csv"; "jsonl"]
            | None => false
            end).
  2:{ split; [intros [r H]; discriminate|intros [H _]; discriminate]. }
  destruct (truthy_string (Options.from opts)) as [d|] eqn:Ef.
  - apply truthy_string_some in Ef. destruct Ef as [Ef Hne].
    destruct (validateIsoDate d) eqn:Ed.
    2:{ split; [intros [r H]; discriminate|].
        intros (_ & H & _). rewrite (H d Ef Hne) in Ed. discriminate. }
    destruct (truthy_string (Options.to opts)) as [d'|] eqn:Et.
    + apply truthy_string_some in Et. destruct Et as [Et Hne'].
      destruct (validateIsoDate d') eqn:Ed'.
      2:{ split; [intros [r H]; discriminate|].
          intros (_ & _ & H & _). rewrite (H d' Et Hne') in Ed'. discriminate. }
      destruct (Options.limit opts) as [[|z]|].
      * split; [intros [r H]; discriminate|].
        intros (_ & _ & _ & H). destruct (H NaN eq_refl) as (z & Hz & _). discriminate.
      * destruct (Z.leb_spec z 0).
        -- split; [intros [r H']; discriminate|].
           intros (_ & _ & _ & H'). destruct (H' (Int z) eq_refl) as (z' & Hz & Hpos).
           injection Hz as ->. lia.
        -- split; [|intros _; exists tt; reflexivity]. intros _.
           split; [reflexivity|]. split; [intros x Hx _; congruence|].
           split; [intros x Hx _; congruence|].
           intros l Hl. injection Hl as <-. exists z. split; [reflexivity|lia].
      * split; [|intros _; exists tt; reflexivity]. intros _.
        split; [reflexivity|]. split; [intros x Hx _; congruence|].
        split; [intros x Hx _; congruence|]. intros l Hl. discriminate.
    + pose proof (proj1 (truthy_string_none _) Et) as Hnone.
      destruct (Options.limit opts) as [[|z]|].
      * split; [intros [r H]; discriminate|].
        intros (_ & _ & _ & H). destruct (H NaN eq_refl) as (z & Hz & _). discriminate.
      * destruct (Z.leb_spec z 0).
        -- split; [intros [r H']; discriminate|].
           intros (_ & _ & _ & H'). destruct (H' (Int z) eq_refl) as (z' & Hz & Hpos).
           injection Hz as ->. lia.
        -- split; [|intros _; exists tt; reflexivity]. intros _.
           split; [reflexivity|]. split; [intros x Hx _; congruence|].
           split; [intros x Hx Hne'; exfalso; apply Hne', (Hnone x Hx)|].
           intros l Hl. injection Hl as <-. exists z. split; [reflexivity|lia].
      * split; [|intros _; exists tt; reflexivity]. intros _.
        split; [reflexivity|]. split; [intros x Hx _; congruence|].
        split; [intros x Hx Hne'; exfalso; apply Hne', (Hnone x Hx)|].
        intros l Hl. discriminate.
  - pose proof (proj1 (truthy_string_none _) Ef) as Hnone0.
    destruct (truthy_string (Options.to opts)) as [d'|] eqn:Et.
    + apply truthy_string_some in Et. destruct Et as [Et Hne'].
      destruct (validateIsoDate d') eqn:Ed'.
      2:{ split; [intros [r H]; discriminate|].
          intros (_ & _ & H & _). rewrite (H d' Et Hne') in Ed'. discriminate. }
      destruct (Options.limit opts) as [[|z]|].
      * split; [intros [r H]; discriminate|].
        intros (_ & _ & _ & H). destruct (H NaN eq_refl) as (z & Hz & _). discriminate.
      * destruct (Z.leb_spec z 0).
        -- split; [intros [r H']; discriminate|].
           intros (_ & _ & _ & H'). destruct (H' (Int z) eq_refl) as (z' & Hz & Hpos).
           injection Hz as ->. lia.
        -- split; [|intros _; exists tt; reflexivity]. intros _.
           split; [reflexivity|].
           split; [intros x Hx Hne0; exfalso; apply Hne0, (Hnone0 x Hx)|].
           split; [intros x Hx _; congruence|].
           intros l Hl. injection Hl as <-. exists z. split; [reflexivity|lia].
      * split; [|intros _; exists tt; reflexivity]. intros _.
        split; [reflexivity|].
        split; [intros x Hx Hne0; exfalso; apply Hne0, (Hnone0 x Hx)|].
        split; [intros x Hx _; congruence|]. intros l Hl. discriminate.
    + pose proof (proj1 (truthy_string_none _) Et) as Hnone.
      destruct (Options.limit opts) as [[|z]|].
      * split; [intros [r H]; discriminate|].
        intros (_ & _ & _ & H). destruct (H NaN eq_refl) as (z & Hz & _). discriminate.
      * destruct (Z.leb_spec z 0).
        -- split; [intros [r H']; discriminate|].
           intros (_ & _ & _ & H'). destruct (H' (Int z) eq_refl) as (z' & Hz & Hpos).
           injection Hz as ->. lia.
        -- split; [|intros _; exists tt; reflexivity]. intros _.
           split; [reflexivity|].
           split; [intros x Hx Hne0; exfalso; apply Hne0, (Hnone0 x Hx)|].
           split; [intros x Hx Hne'; exfalso; apply Hne', (Hnone x Hx)|].
           intros l Hl. injection Hl as <-. exists z. split; [reflexivity|lia].
      * split; [|intros _; exists tt; reflexivity]. intros _.
        split; [reflexivity|].
        split; [intros x Hx Hne0; exfalso; apply Hne0, (Hnone0 x Hx)|].
        split; [intros x Hx Hne'; exfalso; apply Hne', (Hnone x Hx)|].
        intros l Hl. discriminate.
Qed.

Lemma validate_options_passes (opts : Options.t) (s : WhatsAppHistoryStore) :
  fst (validate_options opts s) = inr tt -> options_valid opts.
Proof.
  intros H. apply (validate_options_spec opts s). exists tt.
  pose proof (validate_options_state opts s) as Hs.
  destruct (validate_options opts s) as [r s']. cbn [fst snd] in H, Hs.
  subst. reflexivity.
Qed.

Lemma filter_of_limit_fits (opts : Options.t) :
  options_valid opts ->
  (forall z, Options.limit opts = Some (Int z) -> z < 2 ^ 63) ->
  limit_fits (filter_of opts).
Proof.
  intros (_ & _ & _ & Hl) Hb n. unfold filter_of. cbn [Filter.limit].
  destruct (Options.limit opts) as [[|z]|] eqn:E; try discriminate.
  intros H. injection H as <-.
  destruct (Hl (Int z) eq_refl) as (z' & Hz & Hpos). injection Hz as <-.
  specialize (Hb z eq_refl). lia.
Qed.

(** X12: when the checks of the command pass, the limit, if any, is
    below 2^63 and the stored integers are safe integers, the filter the
    command builds makes [queryMessages] honour the options: a given
    limit is a positive integer and at most that many rows are returned,
    and every returned row is a stored row, read back, whose timestamp
    lies within the parsed [--from] and [--to] dates that were given. *)
Theorem checked_options_are_honoured (opts : Options.t) (d : Database) :
  fst (validate_options opts (mkStore false d)) = inr tt ->
  safe_rows d ->
  (forall z, Options.limit opts = Some (Int z) -> z < 2 ^ 63) ->
  exists rows,
    queryMessages (filter_of opts) (mkStore true d) = (inr rows, mkStore true d)
    /\ (forall l, Options.limit opts = Some l ->
        exists n, l = Int n /\ 0 < n /\ Z.of_nat (List.length rows) <= n)
    /\ (forall r, In r rows ->
        (exists stored, In stored (messages d) /\ r = read_row stored)
        /\ (forall x, Options.from opts = Some x -> x <> "" ->
            exists ms, Date_getTime x = Some ms /\ ms <= timestamp r)
        /\ (forall x, Options.to opts = Some x -> x <> "" ->
            exists ms, Date_getTime x = Some ms /\ timestamp r <= ms)).
Proof.
  intros Hv Hsafe Hb. apply validate_options_passes in Hv.
  pose proof (filter_of_limit_fits opts Hv Hb) as Hfits.
  destruct Hv as (_ & _ & _ & Hlimit).
  eexists. split; [apply queryMessages_open; assumption|]. split.
  - intros l Hl. destruct (Hlimit l Hl) as (n & -> & Hn). exists n.
    split; [reflexivity|]. split; [exact Hn|].
    rewrite length_map. unfold selected_rows, filter_of. cbn [Filter.limit]. rewrite Hl.
    destruct (Z.ltb_spec 0 n); [|lia].
    match goal with
    | |- context [firstn ?k ?l] => pose proof (firstn_le_length k l)
    end. lia.
  - intros r Hr. apply in_map_iff in Hr. destruct Hr as (stored & <- & Hin).
    apply selected_rows_stored in Hin. destruct Hin as [Hin Hw].
    apply where_clause_satisfies in Hw. destruct Hw as (Hf & Ht & _).
    split; [exists stored; split; [exact Hin|reflexivity]|].
    split; [exact Hf|exact Ht].
Qed.

(** ** One run of the command *)

Lemma getStats_keeps (s : WhatsAppHistoryStore) : snd (getStats s) = s.
Proof.
  unfold getStats, bind, this, throw, ret. destruct (db_open s); cbn [negb]; [|reflexivity].
  destruct (read_aggregate (sql_min _)); [reflexivity|].
  destruct (read_aggregate (sql_max _)); reflexivity.
Qed.

Lemma queryMessages_keeps (filter : ExportFilter) (s : WhatsAppHistoryStore) :
  snd (queryMessages filter s) = s.
Proof.
  unfold queryMessages, bind, this, throw, ret. destruct (db_open s); cbn [negb];
    [|reflexivity].
  destruct (select_messages _ _ (file s)); reflexivity.
Qed.

Lemma exportMessages_keeps (filter : ExportFilter) (s : WhatsAppHistoryStore) :
  snd (exportMessages filter s) = s.
Proof.
  unfold exportMessages. unfold bind at 1. cbn [this].
  destruct (db_open s); cbn [negb]; [|reflexivity].
  unfold bind. pose proof (queryMessages_keeps filter s) as H.
  destruct (queryMessages filter s) as [[e|rows] s0]; cbn [snd] in H; subst s0;
    reflexivity.
Qed.

Lemma bind_ret_keeps {A B} (m : M A) (f : A -> B) (s : WhatsAppHistoryStore) :
  snd (m s) = s ->
  snd (bind m (fun x => ret (f x)) s) = s
  /\ forall a, fst (m s) = inr a -> fst (bind m (fun x => ret (f x)) s) = inr (f a).
Proof.
  intros H. unfold bind, ret. destruct (m s) as [[e|a] s0]; cbn [fst snd] in *; subst s0.
  - split; [reflexivity|]. intros a Ha. discriminate Ha.
  - split; [reflexivity|]. intros a' Ha. injection Ha as <-. reflexivity.
Qed.

Lemma export_content_keeps (format : option string) (filter : ExportFilter)
    (s : WhatsAppHistoryStore) :
  snd (export_content format filter s) = s.
Proof.
  pose proof (exportMessages_keeps filter s) as He.
  pose proof (queryMessages_keeps filter s) as Hq.
  unfold export_content.
  destruct format as [f|]; [|apply (bind_ret_keeps _ _ s Hq)].
  repeat match goal with
         | |- context [match ?x with EmptyString => _ | String _ _ => _ end] =>
             destruct x
         | |- context [match ?a with Ascii _ _ _ _ _ _ _ _ => _ end] =>
             destruct a
         | |- context [if ?b then _ else _] => destruct b
         end;
    first [apply (bind_ret_keeps _ _ s Hq) | apply (bind_ret_keeps _ _ s He)].
Qed.

Lemma export_content_returns (format : option string) (filter : ExportFilter)
    (d : Database) :
  safe_rows d -> limit_fits filter ->
  exists content, fst (export_content format filter (mkStore true d)) = inr content.
Proof.
  intros Hsafe Hfits.
  pose proof (exportMessages_open filter d Hsafe Hfits) as He.
  pose proof (queryMessages_open filter d Hsafe Hfits) as Hq.
  assert (He' : forall f : list ExportedConversation -> string,
            exists content,
              fst (bind (exportMessages filter) (fun x => ret (f x)) (mkStore true d))
              = inr content).
  { intros f. unfold bind. rewrite He. eexists. reflexivity. }
  assert (Hq' : forall f : list StoredMessage -> string,
            exists content,
              fst (bind (queryMessages filter) (fun x => ret (f x)) (mkStore true d))
              = inr content).
  { intros f. unfold bind. rewrite Hq. eexists. reflexivity. }
  unfold export_content.
  destruct format as [f|]; [|apply Hq'].
  repeat match goal with
         | |- context [match ?x with EmptyString => _ | String _ _ => _ end] =>
             destruct x
         | |- context [match ?a with Ascii _ _ _ _ _ _ _ _ => _ end] =>
             destruct a
         | |- context [if ?b then _ else _] => destruct b
         end;
    first [apply Hq' | apply He'].
Qed.

Lemma safe_rows_timestamps (d : Database) : safe_rows d -> safe_timestamps d.
Proof.
  unfold safe_rows, safe_timestamps. intros H. eapply Forall_impl; [|exact H].
  intros m Hm. apply Hm.
Qed.

(** The state of the store after a failed [initialize] or a later
    failure: the handle is set unless [mkdirSync] or [new DatabaseSync]
    threw. *)
Lemma export_history_body_checked
    (fault : InitializeFault) (opts : Options.t) (d : Database) :
  fst (validate_options opts (mkStore false d)) = inr tt ->
  (exists e,
      export_history_body fault opts (mkStore false d)
      = (inl e, mkStore (match fault with fault_before_open _ => false | _ => true end) d)
      /\ (forall e', fault = fault_before_open e' \/ fault = fault_after_open e' ->
          e = e'))
  \/ (exists content,
        export_history_body fault opts (mkStore false d)
        = (inr (resolveUserPath (Options.output opts), content), mkStore false d)
        /\ writeFile (resolveUserPath (Options.output opts)) content = None
        /\ fault = no_fault).
Proof.
  intros Hv.
  destruct (export_history_body fault opts (mkStore false d)) as [r s] eqn:Hbody.
  unfold export_history_body in Hbody. unfold bind at 1 in Hbody.
  pose proof (validate_options_state opts (mkStore false d)) as Hs.
  destruct (validate_options opts (mkStore false d)) as [[e|[]] s0];
    cbn [fst snd] in Hv, Hs; [discriminate Hv|]. subst s0. cbv zeta in Hbody.
  unfold bind at 1 in Hbody. cbn [initialize_with db_open file] in Hbody.
  destruct fault as [|e|e].
  2,3: left; exists e; split; [symmetry; exact Hbody|];
       intros e' [H|H]; congruence.
  unfold bind at 1 in Hbody.
  assert (Hverbose : snd ((if Options.verbose opts
                           then bind getStats (fun _ => ret tt) else ret tt)
                            (mkStore true d)) = mkStore true d).
  { destruct (Options.verbose opts); [|reflexivity].
    apply (bind_ret_keeps getStats (fun _ => tt)), getStats_keeps. }
  destruct ((if Options.verbose opts then bind getStats (fun _ => ret tt) else ret tt)
              (mkStore true d)) as [[e|[]] s1]; cbn [snd] in Hverbose; subst s1.
  { left. exists e. split; [symmetry; exact Hbody|]. intros e' [H|H]; discriminate H. }
  unfold bind at 1 in Hbody.
  pose proof (export_content_keeps (option_map toLowerCase (Options.format opts))
                (filter_of opts) (mkStore true d)) as Hc.
  destruct (export_content (option_map toLowerCase (Options.format opts))
              (filter_of opts) (mkStore true d)) as [[e|content] s2];
    cbn [snd] in Hc; subst s2.
  { left. exists e. split; [symmetry; exact Hbody|]. intros e' [H|H]; discriminate H. }
  unfold bind at 1 in Hbody.
  destruct (writeFile (resolveUserPath (Options.output opts)) content) as [e|] eqn:Hw.
  { left. exists e. split; [symmetry; exact Hbody|]. intros e' [H|H]; discriminate H. }
  right. exists content. split; [symmetry; exact Hbody|]. split; [exact Hw|reflexivity].
Qed.

(** The run when the checks pass, the store opens, the reads return and
    the write succeeds. *)
Lemma export_history_body_succeeds (opts : Options.t) (d : Database) :
  fst (validate_options opts (mkStore false d)) = inr tt ->
  safe_rows d ->
  (forall z, Options.limit opts = Some (Int z) -> z < 2 ^ 63) ->
  (forall content, writeFile (resolveUserPath (Options.output opts)) content = None) ->
  exists content,
    export_history_body no_fault opts (mkStore false d)
    = (inr (resolveUserPath (Options.output opts), content), mkStore false d).
Proof.
  intros Hv Hsafe Hb Hw.
  pose proof (filter_of_limit_fits opts (validate_options_passes opts _ Hv) Hb) as Hfits.
  unfold export_history_body. unfold bind at 1.
  pose proof (validate_options_state opts (mkStore false d)) as Hs.
  destruct (validate_options opts (mkStore false d)) as [[e|[]] s0];
    cbn [fst snd] in Hv, Hs; [discriminate Hv|]. subst s0. cbv zeta.
  unfold bind at 1. cbn [initialize_with db_open file].
  unfold bind at 1.
  assert (Hverbose : (if Options.verbose opts
                      then bind getStats (fun _ => ret tt) else ret tt)
                       (mkStore true d) = (inr tt, mkStore true d)).
  { destruct (Options.verbose opts); [|reflexivity].
    unfold bind. rewrite (getStats_safe d (safe_rows_timestamps d Hsafe)). reflexivity. }
  rewrite Hverbose. unfold bind at 1.
  pose proof (export_content_keeps (option_map toLowerCase (Options.format opts))
                (filter_of opts) (mkStore true d)) as Hc.
  destruct (export_content_returns (option_map toLowerCase (Options.format opts))
              (filter_of opts) d Hsafe Hfits) as [content Hcontent].
  destruct (export_content (option_map toLowerCase (Options.format opts))
              (filter_of opts) (mkStore true d)) as [r s2];
    cbn [fst snd] in Hc, Hcontent; subst s2 r.
  unfold bind at 1. rewrite Hw. exists content. reflexivity.
Qed.

(** X13: one run of the export command closes the store only when it
    succeeds.  When a check of the options fails, the run fails with the
    message of that check and the store is never opened.  When the run
    writes its output, the file is the resolved [--output] path, the
    write has succeeded, the store had opened and is closed again.  When
    the checks pass and the run still fails, because opening the store,
    a read or the write throws, the [catch] closes nothing: the handle is
    left as the failure found it, null when [mkdirSync] or
    [new DatabaseSync] threw and open otherwise; a failure of
    [initialize] is the failure reported.  When the checks pass, the
    store opens, the stored integers are safe integers, the limit is
    below 2^63 and the write succeeds, the run writes its output. *)
Theorem export_history_outcomes
    (fault : InitializeFault) (opts : Options.t) (d : Database) :
  exists outcome s',
    export_history fault opts d = (outcome, s')
    /\ (forall e,
          fst (validate_options opts (mkStore false d)) = inl e ->
          outcome = failed (String.append "Export failed: " (error_message e))
          /\ s' = mkStore false d)
    /\ (forall path content,
          outcome = exported path content ->
          path = resolveUserPath (Options.output opts)
          /\ writeFile path content = None
          /\ fault = no_fault
          /\ s' = mkStore false d)
    /\ (fst (validate_options opts (mkStore false d)) = inr tt ->
        forall message, outcome = failed message ->
        s' = mkStore (match fault with fault_before_open _ => false | _ => true end) d
        /\ forall e, fault = fault_before_open e \/ fault = fault_after_open e ->
           message = String.append "Export failed: " (error_message e))
    /\ (fst (validate_options opts (mkStore false d)) = inr tt ->
        fault = no_fault ->
        safe_rows d ->
        (forall z, Options.limit opts = Some (Int z) -> z < 2 ^ 63) ->
        (forall content,
            writeFile (resolveUserPath (Options.output opts)) content = None) ->
        exists content,
          outcome = exported (resolveUserPath (Options.output opts)) content).
Proof.
  unfold export_history.
  destruct (fst (validate_options opts (mkStore false d))) as [e|[]] eqn:Hv.
  - assert (Hbody : export_history_body fault opts (mkStore false d)
                    = (inl e, mkStore false d)).
    { unfold export_history_body. unfold bind at 1.
      pose proof (validate_options_state opts (mkStore false d)) as Hs.
      destruct (validate_options opts (mkStore false d)) as [r s0];
        cbn [fst snd] in Hv, Hs. subst. reflexivity. }
    rewrite Hbody. eexists. eexists. split; [reflexivity|].
    split; [intros e' He'; injection He' as <-; split; reflexivity|].
    split; [intros path content H; discriminate H|].
    split; [intros H; discriminate H|intros H; discriminate H].
  - destruct (export_history_body_checked fault opts d Hv)
      as [(e & Hbody & He)|(content & Hbody & Hw & Hfault)]; rewrite Hbody.
    + eexists. eexists. split; [reflexivity|].
      split; [intros e' He'; discriminate He'|].
      split; [intros path c H; discriminate H|].
      split.
      { intros _ message Hm. split; [reflexivity|].
        intros e' He'. injection Hm as <-. rewrite (He e' He'). reflexivity. }
      intros _ -> Hsafe Hb Hwrite.
      destruct (export_history_body_succeeds opts d Hv Hsafe Hb Hwrite) as [c Hc].
      rewrite Hc in Hbody. discriminate Hbody.
    + eexists. eexists. split; [reflexivity|].
      split; [intros e' He'; discriminate He'|].
      split.
      { intros path c H. injection H as <- <-. repeat split; assumption. }
      split; [intros _ message H; discriminate H|].
      intros _ _ _ _ _. exists content. reflexivity.
Qed.

End Store.

(** ** Instances on the sample data *)

Lemma sample_database_unique_jids : unique_jids sample_database.
Proof. repeat constructor. intros []. Qed.

Lemma sample_database_no_orphans : no_orphans sample_database.
Proof.
  intros m [<-|[]]. eexists. split; [left; reflexivity|reflexivity].
Qed.

(** The edit of "msg-1" replaces the first version of it. *)
Lemma storeMessage_twice_keeps_second_sample :
  Params.conversationJid sample_first = Params.conversationJid sample_second
  /\ Params.messageId sample_first = Params.messageId sample_second
  /\ exists d' r,
    (storeMessage string (fun raw => raw) sample_first 1700000002000 ;;
     storeMessage string (fun raw => raw) sample_second 1700000003000)
      (mkStore true sample_database)
    = (inr tt, mkStore true d')
    /\ filter (message_key_eqb sample_jid "msg-1") (messages d') = [r]
    /\ row_records string (fun raw => raw) sample_second 1700000003000 r.
Proof.
  split; [reflexivity|]. split; [reflexivity|].
  exact (storeMessage_twice_keeps_second string (fun raw => raw)
           sample_first sample_second 1700000002000 1700000003000 sample_database
           eq_refl eq_refl).
Defined.

(** The second call has no display name and an earlier timestamp: the
    name of the first call stays and the timestamp of the second is
    recorded. *)
Lemma conversation_row_tracks_calls_sample :
  unique_jids sample_database
  /\ Forall (fun c : Params.t string * Z => Params.conversationJid (fst c) = sample_jid)
       ([(sample_first, 1700000002000)] ++ [(sample_second, 1700000003000)])
  /\ exists d' row,
    store_all string (fun raw => raw)
      ([(sample_first, 1700000002000)] ++ [(sample_second, 1700000003000)])
      (mkStore true sample_database)
    = (inr tt, mkStore true d')
    /\ filter (jid_is sample_jid) (conversations d') = [row]
    /\ Conv.display_name row = Some "User 1"
    /\ Conv.last_message_at row = 1700000000500.
Proof.
  split; [exact sample_database_unique_jids|].
  split; [repeat constructor|].
  refine (conversation_row_tracks_calls string (fun raw => raw) sample_jid
            [(sample_first, 1700000002000)] (sample_second, 1700000003000)
            sample_database sample_database_unique_jids _).
  repeat constructor.
Defined.

(** The engine fails on the message insert: the call fails with the
    conversation row written and the messages table as it was. *)
Lemma conversation_upserted_before_message_sample :
  no_orphans sample_database
  /\ exists outcome d',
       storeMessage_failing string (fun raw => raw) sample_fails
         (Error "database or disk is full") sample_first 1700000002000
         (mkStore true sample_database)
       = (outcome, mkStore true d')
       /\ no_orphans d'
       /\ (sample_fails (upsertConv_of string sample_first 1700000002000) = true ->
           outcome = inl (Error "database or disk is full") /\ d' = sample_database)
       /\ (sample_fails (upsertConv_of string sample_first 1700000002000) = false ->
           (exists c, In c (conversations d')
                      /\ Conv.jid c = Params.conversationJid sample_first)
           /\ (sample_fails
                 (insertMsg_of string (fun raw => raw) sample_first 1700000002000) = true ->
               outcome = inl (Error "database or disk is full")
               /\ messages d' = messages sample_database))
       /\ exists d'' row,
            storeMessage string (fun raw => raw) sample_first 1700000002000
              (mkStore true sample_database)
            = (inr tt, mkStore true d'')
            /\ no_orphans d''
            /\ insertMsg_of string (fun raw => raw) sample_first 1700000002000
               = insertMsg row
            /\ In row (messages d'')
            /\ exists c, In c (conversations d'') /\ Conv.jid c = conversation_jid row.
Proof.
  split; [exact sample_database_no_orphans|].
  exact (conversation_upserted_before_message string (fun raw => raw)
           sample_first 1700000002000 sample_database sample_fails
           (Error "database or disk is full") sample_database_no_orphans).
Defined.

(** With [limit: 0] the query on the sample database returns its row:
    more rows than the limit that was supplied. *)
Lemma queryMessages_limit_zero_returns_rows :
  exists rows,
    queryMessages sample_getTime (Filter.mk None None None None (Some 0))
      (mkStore true sample_database)
    = (inr rows, mkStore true sample_database)
    /\ Filter.limit (Filter.mk None None None None (Some 0)) = Some 0
    /\ rows = [sample_row]
    /\ ~ (Z.of_nat (List.length rows) <= 0).
Proof.
  exists [sample_row]. split; [vm_compute; reflexivity|]. split; [reflexivity|].
  split; [reflexivity|]. cbn. lia.
Qed.

Lemma sample_database_safe : safe_rows sample_database.
Proof. repeat constructor. Qed.

Lemma sample_database_two_safe : safe_rows sample_database_two.
Proof. repeat constructor. Qed.

Lemma sample_limit_fits :
  limit_fits (Filter.mk None None None None (Some 1)).
Proof. intros n [= <-]. lia. Qed.

Lemma sample_first_nul_free : nul_free_params string (fun raw => raw) sample_first.
Proof.
  unfold nul_free_params, nul_free_option, nul_free.
  repeat split; try (intros s [= <-]); cbn; intros H;
    repeat (destruct H as [H|H]; [discriminate H|]); exact H.
Qed.

(** The first row of the two, for the limit 1. *)
Lemma queryMessages_selects_sorts_limits_sample :
  safe_rows sample_database_two
  /\ limit_fits (Filter.mk None None None None (Some 1))
  /\ exists all,
       Permutation all
         (List.filter
            (where_clause
               (conditions_of sample_getTime (Filter.mk None None None None (Some 1))))
            (messages sample_database_two))
       /\ (forall r,
             where_clause
               (conditions_of sample_getTime (Filter.mk None None None None (Some 1))) r
             = true
             <-> satisfies sample_getTime (Filter.mk None None None None (Some 1)) r)
       /\ (forall r,
             In r all
             <-> In r (messages sample_database_two)
                 /\ satisfies sample_getTime (Filter.mk None None None None (Some 1)) r)
       /\ StronglySorted ascending all
       /\ queryMessages sample_getTime (Filter.mk None None None None (Some 1))
            (mkStore true sample_database_two)
          = (inr (map read_row (firstn 1 all)), mkStore true sample_database_two)
       /\ (forall n rows,
             Some 1 = Some n -> 0 < n ->
             queryMessages sample_getTime (Filter.mk None None None None (Some 1))
               (mkStore true sample_database_two)
             = (inr rows, mkStore true sample_database_two) ->
             rows = map read_row (firstn (Z.to_nat n) all)
             /\ Z.of_nat (List.length rows) <= n)
       /\ (forall rows,
             queryMessages sample_getTime (Filter.mk None None None None (Some 1))
               (mkStore true sample_database_two)
             = (inr rows, mkStore true sample_database_two) ->
             StronglySorted ascending rows).
Proof.
  split; [exact sample_database_two_safe|]. split; [exact sample_limit_fits|].
  exact (queryMessages_selects_sorts_limits sample_getTime
           (Filter.mk None None None None (Some 1)) sample_database_two
           sample_database_two_safe sample_limit_fits).
Defined.

Lemma sample_database_two_unique_jids : unique_jids sample_database_two.
Proof. repeat constructor. intros []. Qed.

(** The two rows of the one conversation, in one group. *)
Lemma exportMessages_groups_by_first_appearance_sample :
  unique_jids sample_database_two
  /\ safe_rows sample_database_two
  /\ limit_fits Filter.empty
  /\ exists stream groups,
       queryMessages sample_getTime Filter.empty (mkStore true sample_database_two)
       = (inr stream, mkStore true sample_database_two)
       /\ exportMessages sample_getTime Filter.empty (mkStore true sample_database_two)
          = (inr groups, mkStore true sample_database_two)
       /\ StronglySorted ascending stream
       /\ map Exported.jid groups = first_occurrences (map conversation_jid stream)
       /\ forall g, In g groups ->
            Exported.messages g
            = map exported_message
                (List.filter (in_conversation (Exported.jid g)) stream)
            /\ StronglySorted Z.le (map Exported.timestamp (Exported.messages g))
            /\ (forall c, In c (conversations sample_database_two) ->
                Conv.jid c = Exported.jid g ->
                Exported.chatType g = Conv.chat_type c
                /\ Exported.displayName g = option_map read_text (Conv.display_name c))
            /\ ((forall c, In c (conversations sample_database_two) ->
                 Conv.jid c <> Exported.jid g) ->
                Exported.chatType g = direct /\ Exported.displayName g = None).
Proof.
  assert (Hfits : limit_fits Filter.empty) by (intros n H; discriminate H).
  split; [exact sample_database_two_unique_jids|].
  split; [exact sample_database_two_safe|]. split; [exact Hfits|].
  exact (exportMessages_groups_by_first_appearance sample_getTime Filter.empty
           sample_database_two sample_database_two_unique_jids
           sample_database_two_safe Hfits).
Defined.

Lemma stored_once_round_trips_sample :
  nul_free_params string (fun raw => raw) sample_first
  /\ safe_integer (Params.timestamp sample_first) = true
  /\ safe_integer 1700000002000 = true
  /\ exists r s',
       (initialize ;; storeMessage string (fun raw => raw) sample_first 1700000002000 ;;
        queryMessages sample_getTime Filter.empty)
         (mkStore false empty_database)
       = (inr [r], s')
       /\ row_records string (fun raw => raw) sample_first 1700000002000 r.
Proof.
  split; [exact sample_first_nul_free|]. split; [reflexivity|]. split; [reflexivity|].
  exact (stored_once_round_trips string (fun raw => raw) sample_getTime sample_first
           1700000002000 sample_first_nul_free eq_refl eq_refl).
Defined.

(** Three messages ingested once that do not come back as ingested.  The
    body with a NUL character comes back cut before it.  With the
    timestamp 2^53 the query returns no row: reading the row throws.  And
    the from-me flag [true] comes back as the number 1. *)
Lemma stored_once_comes_back_changed :
  (exists r s',
     (initialize ;; storeMessage string (fun raw => raw) sample_nul_body 1700000002000 ;;
      queryMessages sample_getTime Filter.empty)
       (mkStore false empty_database)
     = (inr [r], s')
     /\ body r = "a"
     /\ body r <> Params.body sample_nul_body
     /\ returned_is_from_me r = js_number 1
     /\ returned_is_from_me r <> ingested_is_from_me string sample_nul_body)
  /\ (exists s',
        (initialize ;;
         storeMessage string (fun raw => raw) sample_unsafe_timestamp 1700000002000 ;;
         queryMessages sample_getTime Filter.empty)
          (mkStore false empty_database)
        = (inl (RangeError 9007199254740992), s')).
Proof.
  split.
  - eexists. eexists. split; [vm_compute; reflexivity|].
    split; [reflexivity|]. split; [discriminate|]. split; [reflexivity|discriminate].
  - eexists. vm_compute. reflexivity.
Qed.

Lemma sample_database_safe_timestamps : safe_timestamps sample_database.
Proof. repeat constructor. Qed.

Lemma getStats_counts_and_bounds_sample :
  safe_timestamps sample_database
  /\ exists st,
       getStats (mkStore true sample_database) = (inr st, mkStore true sample_database)
       /\ Stats.totalMessages st = 1
       /\ Stats.totalConversations st = 1.
Proof.
  split; [exact sample_database_safe_timestamps|].
  destruct (getStats_counts_and_bounds sample_database sample_database_safe_timestamps)
    as (st & Hrun & Hm & Hc & _).
  exists st. split; [exact Hrun|]. split; [exact Hm|exact Hc].
Defined.

(** ** Instances of the further properties *)

Lemma sample_database_unique_message_keys : unique_message_keys sample_database.
Proof. repeat constructor. intros []. Qed.

Lemma sample_database_unique_participant_keys : unique_participant_keys sample_database.
Proof. constructor. Qed.

Lemma storeMessage_keeps_primary_keys_sample :
  unique_jids sample_database
  /\ unique_message_keys sample_database
  /\ unique_participant_keys sample_database
  /\ exists d',
       storeMessage string (fun raw => raw) sample_first 1700000002000
         (mkStore true sample_database)
       = (inr tt, mkStore true d')
       /\ unique_jids d' /\ unique_message_keys d' /\ unique_participant_keys d'.
Proof.
  split; [exact sample_database_unique_jids|].
  split; [exact sample_database_unique_message_keys|].
  split; [exact sample_database_unique_participant_keys|].
  exact (storeMessage_keeps_primary_keys string (fun raw => raw) sample_first
           1700000002000 sample_database sample_database_unique_jids
           sample_database_unique_message_keys sample_database_unique_participant_keys).
Defined.

(** A store opened on a fresh file, with one message stored and then
    stored again. *)
Lemma sample_store_reachable :
  reachable string (fun raw => raw)
    (snd (storeMessage string (fun raw => raw) sample_second 1700000003000
            (snd (storeMessage string (fun raw => raw) sample_first 1700000002000
                    (snd (initialize (mkStore false empty_database))))))).
Proof.
  apply reachable_storeMessage, reachable_storeMessage, reachable_initialize,
    reachable_new.
Qed.

Lemma reachable_store_is_consistent_sample :
  let s :=
    snd (storeMessage string (fun raw => raw) sample_second 1700000003000
           (snd (storeMessage string (fun raw => raw) sample_first 1700000002000
                   (snd (initialize (mkStore false empty_database)))))) in
  reachable string (fun raw => raw) s
  /\ unique_jids (file s) /\ unique_message_keys (file s)
  /\ unique_participant_keys (file s) /\ no_orphans (file s).
Proof.
  split; [exact sample_store_reachable|].
  exact (reachable_store_is_consistent string (fun raw => raw) _ sample_store_reachable).
Defined.

Lemma getStats_after_storeMessage_sample :
  unique_message_keys sample_database
  /\ safe_timestamps sample_database
  /\ safe_integer (Params.timestamp sample_first) = true
  /\ exists before after s',
       getStats (mkStore true sample_database) = (inr before, mkStore true sample_database)
       /\ (storeMessage string (fun raw => raw) sample_first 1700000002000 ;; getStats)
            (mkStore true sample_database) = (inr after, s')
       /\ Stats.totalMessages after = Stats.totalMessages before + 1
       /\ Stats.totalConversations after = Stats.totalConversations before + 0.
Proof.
  split; [exact sample_database_unique_message_keys|].
  split; [exact sample_database_safe_timestamps|]. split; [reflexivity|].
  exact (getStats_after_storeMessage string (fun raw => raw) sample_first
           1700000002000 sample_database sample_database_unique_message_keys
           sample_database_safe_timestamps eq_refl).
Defined.

Lemma exportMessages_partitions_the_query_sample :
  safe_rows sample_database_two
  /\ limit_fits (Filter.mk None None None None (Some 1))
  /\ exists stream groups,
       queryMessages sample_getTime (Filter.mk None None None None (Some 1))
         (mkStore true sample_database_two)
       = (inr stream, mkStore true sample_database_two)
       /\ exportMessages sample_getTime (Filter.mk None None None None (Some 1))
            (mkStore true sample_database_two)
          = (inr groups, mkStore true sample_database_two)
       /\ Permutation (List.concat (map Exported.messages groups))
            (map exported_message stream)
       /\ NoDup (map Exported.jid groups)
       /\ Forall (fun g => Exported.messages g <> []) groups.
Proof.
  split; [exact sample_database_two_safe|]. split; [exact sample_limit_fits|].
  exact (exportMessages_partitions_the_query sample_getTime
           (Filter.mk None None None None (Some 1)) sample_database_two
           sample_database_two_safe sample_limit_fits).
Defined.

Lemma stored_once_exports_once_sample :
  nul_free_params string (fun raw => raw) sample_first
  /\ safe_integer (Params.timestamp sample_first) = true
  /\ safe_integer 1700000002000 = true
  /\ exists s',
       (initialize ;; storeMessage string (fun raw => raw) sample_first 1700000002000 ;;
        exportMessages sample_getTime Filter.empty)
         (mkStore false empty_database)
       = (inr [Exported.mk sample_jid direct (Some "User 1")
                 [Exported.mkMessage "msg-1" (Some sample_jid) (Some "+1234567890")
                    (Some "Test User") "Message 1" 1700000001000 false None None None
                    None]],
          s').
Proof.
  split; [exact sample_first_nul_free|]. split; [reflexivity|]. split; [reflexivity|].
  exact (stored_once_exports_once string (fun raw => raw) sample_getTime sample_first
           1700000002000 sample_first_nul_free eq_refl eq_refl).
Defined.

Lemma csvEscape_injective_sample :
  csvEscape "a,b" = csvEscape "a,b" /\ "a,b" = "a,b".
Proof.
  split; [reflexivity|].
  exact (csvEscape_injective "a,b" "a,b" eq_refl).
Defined.

(** A cell with a comma and a null cell. *)
Lemma toCsvRow_reads_back_sample :
  [csv_string "a,b"; csv_null; csv_string "c"] <> []
  /\ csv_fields (toCsvRow sample_Number_toString [csv_string "a,b"; csv_null; csv_string "c"])
     = ["a,b"; ""; "c"].
Proof.
  split; [discriminate|].
  apply (toCsvRow_reads_back sample_Number_toString
           [csv_string "a,b"; csv_null; csv_string "c"]).
  discriminate.
Defined.


Lemma sample_options_limit :
  forall z, Options.limit sample_options = Some (Int z) -> z < 2 ^ 63.
Proof. intros z [= <-]. lia. Qed.

Lemma checked_options_are_honoured_sample :
  fst (validate_options sample_getTime sample_Number_toString (fun s => s)
         sample_options (mkStore false sample_database_two)) = inr tt
  /\ safe_rows sample_database_two
  /\ (forall z, Options.limit sample_options = Some (Int z) -> z < 2 ^ 63)
  /\ exists rows,
       queryMessages sample_getTime (filter_of sample_options)
         (mkStore true sample_database_two)
       = (inr rows, mkStore true sample_database_two)
       /\ (forall l, Options.limit sample_options = Some l ->
           exists n, l = Int n /\ 0 < n /\ Z.of_nat (List.length rows) <= n)
       /\ (forall r, In r rows ->
           (exists stored, In stored (messages sample_database_two)
                           /\ r = read_row stored)
           /\ (forall x, Options.from sample_options = Some x -> x <> "" ->
               exists ms, sample_getTime x = Some ms /\ ms <= timestamp r)
           /\ (forall x, Options.to sample_options = Some x -> x <> "" ->
               exists ms, sample_getTime x = Some ms /\ timestamp r <= ms)).
Proof.
  split; [reflexivity|]. split; [exact sample_database_two_safe|].
  split; [exact sample_options_limit|].
  exact (checked_options_are_honoured sample_getTime sample_Number_toString
           (fun s => s) sample_options sample_database_two eq_refl
           sample_database_two_safe sample_options_limit).
Defined.

Lemma queryMessages_ignores_storage_order_sample :
  Permutation (messages sample_database_two) (messages sample_database_swapped)
  /\ NoDup (map timestamp (messages sample_database_two))
  /\ fst (queryMessages sample_getTime Filter.empty (mkStore true sample_database_two))
     = fst (queryMessages sample_getTime Filter.empty (mkStore true sample_database_swapped)).
Proof.
  assert (Hp : Permutation (messages sample_database_two)
                 (messages sample_database_swapped)) by apply perm_swap.
  assert (Hn : NoDup (map timestamp (messages sample_database_two))).
  { constructor; [intros [H|[]]; discriminate H|]. constructor; [intros []|constructor]. }
  split; [exact Hp|]. split; [exact Hn|].
  exact (queryMessages_ignores_storage_order sample_getTime Filter.empty
           sample_database_two sample_database_swapped Hp Hn).
Defined.

Lemma reachable_rows_are_well_shaped_sample :
  let s :=
    snd (storeMessage string (fun raw => raw) sample_second 1700000003000
           (snd (storeMessage string (fun raw => raw) sample_first 1700000002000
                   (snd (initialize (mkStore false empty_database)))))) in
  reachable string (fun raw => raw) s
  /\ Forall message_shape (messages (file s))
  /\ Forall (participant_shape (file s)) (participants (file s))
  /\ Forall (fun m =>
       Exported.location (exported_message m) = None <-> location_lat m = None)
      (messages (file s)).
Proof.
  split; [exact sample_store_reachable|].
  exact (reachable_rows_are_well_shaped string (fun raw => raw) _ sample_store_reachable).
Defined.


Lemma exportMessages_limit_counts_messages_sample :
  safe_rows sample_database_two
  /\ Filter.limit (Filter.mk None None None None (Some 1)) = Some 1
  /\ 0 < 1 < 2 ^ 63
  /\ exists groups,
       exportMessages sample_getTime (Filter.mk None None None None (Some 1))
         (mkStore true sample_database_two)
       = (inr groups, mkStore true sample_database_two)
       /\ Z.of_nat (List.length (List.concat (map Exported.messages groups))) <= 1.
Proof.
  assert (Hn : 0 < 1 < 2 ^ 63) by lia.
  split; [exact sample_database_two_safe|]. split; [reflexivity|]. split; [exact Hn|].
  exact (exportMessages_limit_counts_messages sample_getTime
           (Filter.mk None None None None (Some 1)) sample_database_two 1
           sample_database_two_safe eq_refl Hn).
Defined.
